(** * core-js-101, [src/05-objects-tasks.js]

    A shallow embedding of the three utilities of the module:
    [Rectangle], the JSON helpers [getJSON] / [fromJSON], and the CSS
    selector builder ([class CreateElement] behind the facade
    [cssSelectorBuilder]), followed by the properties proved about them.

    JavaScript objects are mutable and handled by reference, and the
    builder methods mutate [this] and return it.  Instances therefore live
    in a store (a finite map from references to instances) and methods are
    computations in a state-and-exception monad over that store. *)

From Stdlib Require Import Ascii String List Bool ZArith Floats DecimalString DecimalNat.
From stdpp Require Import base option gmap strings list.

Local Open Scope string_scope.

#[local] Set Warnings "-register-all".

(** ** The JavaScript fragment the module relies on *)

Module JS.

(** Thrown values.  The builder throws [new Error(message)]; the host
    throws [TypeError] (e.g. [Object.keys(null)]) and [SyntaxError]
    ([JSON.parse] on malformed text). *)
Inductive exn : Type :=
| Error (message : string)
| TypeError (message : string)
| SyntaxError (message : string).

(** How a call completes. *)
Inductive completion (A : Type) : Type :=
| Return (a : A)
| Throw (e : exn).
Arguments Return {A} a.
Arguments Throw {A} e.

(** [ToBoolean] on a String: only the empty string is falsy. *)
Definition truthy (s : string) : bool :=
  match s with
  | EmptyString => false
  | String _ _ => true
  end.

(** [a || b] on Strings: [a] when it is truthy, else [b]. *)
Definition or (a b : string) : string := if truthy a then a else b.

(** Computations over a store [S] that may throw. *)
Definition M (S A : Type) : Type := S -> completion A * S.

Definition ret {S A} (a : A) : M S A := fun h => (Return a, h).

Definition throw {S A} (e : exn) : M S A := fun h => (Throw e, h).

Definition bind {S A B} (c : M S A) (k : A -> M S B) : M S B :=
  fun h =>
    match c h with
    | (Return a, h') => k a h'
    | (Throw e, h') => (Throw e, h')
    end.

End JS.

Import JS.

Declare Scope js_scope.
Delimit Scope js_scope with js.
Notation "'let!' x ':=' c 'in' k" := (JS.bind c (fun x => k))
  (at level 10, x name, c at level 100, k at level 200) : js_scope.
Notation "c ';;;' k" := (JS.bind c (fun _ => k))
  (at level 100, k at level 200, right associativity) : js_scope.
Infix "|||" := JS.or (at level 50, left associativity) : js_scope.

Local Open Scope js_scope.

(** The double-quote character, for string constants that contain it. *)
Definition dquote : string := String (Ascii.Ascii false true false false false true false false) EmptyString.

(** ** [Rectangle] *)

(** A JavaScript Number is an IEEE 754 binary64 value, and [*] on Numbers
    is its multiplication: Rocq's primitive [float] and [PrimFloat.mul]. *)
Module Rect.

(** The object literal [{ width, height, getArea() {...} }]: two data
    properties and a method.  The method body does not mention [this], so
    the method is the closure the literal creates. *)
Record object : Type := Build {
  width : float;
  height : float;
  getArea : unit -> float
}.

Definition Rectangle (width height : float) : object :=
  Build width height (fun _ => PrimFloat.mul width height).

(** An assignment to a data property of the object, [r.width = v] or
    [r.height = v]. *)
Inductive assignment : Type :=
| SetWidth (v : float)
| SetHeight (v : float).

Definition assign (r : object) (a : assignment) : object :=
  match a with
  | SetWidth v => Build v (height r) (getArea r)
  | SetHeight v => Build (width r) v (getArea r)
  end.

End Rect.

(** ** [getJSON] and [fromJSON] *)

(** Plain data: the values JSON text denotes.  [N] is the type of numbers;
    neither helper computes with a number, so it is left open. *)
Inductive value (N : Type) : Type :=
| Null
| Boolean (b : bool)
| Number (n : N)
| Str (s : string)
| Array (elements : list (value N))
| Object (properties : list (string * value N)).
Arguments Null {N}.
Arguments Boolean {N} b.
Arguments Number {N} n.
Arguments Str {N} s.
Arguments Array {N} elements.
Arguments Object {N} properties.

(** What the assignment [result[key] = x] finds for [key] on the prototype
    chain of [result] when [result] has no own property of that name. *)
Inductive inherited (N : Type) : Type :=
| NotFound
    (* no property of that name: the assignment creates an own property *)
| WritableData
    (* a writable data property, e.g. a method: same effect *)
| ReadOnly
    (* a non-writable data property or an accessor without setter: outside
       strict mode the assignment is dropped silently *)
| Setter (set : list (string * value N) -> value N -> completion (list (string * value N)))
    (* an accessor with a setter, which runs on the receiver's own properties *)
| ProtoSetter.
    (* the [__proto__] accessor of [Object.prototype] *)
Arguments NotFound {N}.
Arguments WritableData {N}.
Arguments ReadOnly {N}.
Arguments Setter {N} set.
Arguments ProtoSetter {N}.

(** A prototype object, seen through the assignments made to objects that
    inherit from it. *)
Record Prototype (N : Type) : Type := { on_chain : string -> inherited N }.
Arguments on_chain {N} p key.

(** The [[Prototype]] of the object [fromJSON] builds: the [proto] it was
    given, unless an assignment to [__proto__] replaced it by a parsed
    value or by [null]. *)
Inductive prototype_slot (N : Type) : Type :=
| Given (proto : Prototype N)
| Parsed (v : value N)
| NoPrototype.
Arguments Given {N} proto.
Arguments Parsed {N} v.
Arguments NoPrototype {N}.

(** The object [fromJSON] returns: its prototype and its own enumerable
    properties, in creation order. *)
Record object (N : Type) : Type := {
  prototype : prototype_slot N;
  own : list (string * value N)
}.
Arguments prototype {N} o.
Arguments own {N} o.

Section Objects.

Context {N : Type}.

(** The property name of an array or string index. *)
Definition index (i : nat) : string := NilEmpty.string_of_uint (Nat.to_uint i).

Definition indexed (l : list (value N)) : list (string * value N) :=
  imap (fun i x => (index i, x)) l.

Fixpoint characters (s : string) : list (value N) :=
  match s with
  | EmptyString => []
  | String c s' => Str (String c EmptyString) :: characters s'
  end.

(** The own enumerable properties of a value converted to an object:
    [null] cannot be converted; a boolean or a number has none; a string
    and an array have their indices. *)
Definition own_enumerable (v : value N) : option (list (string * value N)) :=
  match v with
  | Null => None
  | Boolean _ | Number _ => Some []
  | Str s => Some (indexed (characters s))
  | Array l => Some (indexed l)
  | Object ps => Some ps
  end.

(** [Object.keys(obj)]. *)
Definition Object_keys (obj : value N) : completion (list string) :=
  match own_enumerable obj with
  | Some ps => Return (fst <$> ps)
  | None => Throw (TypeError "Cannot convert undefined or null to object")
  end.

Fixpoint assoc (key : string) (ps : list (string * value N)) : option (value N) :=
  match ps with
  | [] => None
  | (k, x) :: ps' => if String.eqb k key then Some x else assoc key ps'
  end.

(** [obj[key]] for an own enumerable property; [None] is [undefined]. *)
Definition get (obj : value N) (key : string) : option (value N) :=
  match own_enumerable obj with
  | Some ps => assoc key ps
  | None => None
  end.

(** Writing an own property: in place when it exists, else at the end. *)
Fixpoint define (key : string) (x : value N) (ps : list (string * value N))
    : list (string * value N) :=
  match ps with
  | [] => [(key, x)]
  | (k, y) :: ps' =>
      if String.eqb k key then (k, x) :: ps' else (k, y) :: define key x ps'
  end.

(** What an assignment finds on the chain behind each prototype slot.  A
    parsed object or array has writable own properties and inherits
    [__proto__] from [Object.prototype]. *)
Definition find_inherited (p : prototype_slot N) (key : string) : inherited N :=
  match p with
  | Given proto => on_chain proto key
  | Parsed v =>
      match get v key with
      | Some _ => WritableData
      | None => if String.eqb key "__proto__" then ProtoSetter else NotFound
      end
  | NoPrototype => NotFound
  end.

(** The assignment [result[key] = x]. *)
Definition put (result : object N) (key : string) (x : value N) : completion (object N) :=
  match assoc key (own result) with
  | Some _ => Return {| prototype := prototype result; own := define key x (own result) |}
  | None =>
      match find_inherited (prototype result) key with
      | NotFound | WritableData =>
          Return {| prototype := prototype result; own := define key x (own result) |}
      | ReadOnly => Return result
      | Setter set =>
          match set (own result) x with
          | Return ps => Return {| prototype := prototype result; own := ps |}
          | Throw e => Throw e
          end
      | ProtoSetter =>
          match x with
          | Object _ | Array _ => Return {| prototype := Parsed x; own := own result |}
          | Null => Return {| prototype := NoPrototype; own := own result |}
          | Boolean _ | Number _ | Str _ => Return result
          end
      end
  end.

(** [keys.forEach(callback)] where the callback updates [result]. *)
Fixpoint forEach (keys : list string)
    (callback : string -> object N -> completion (object N))
    (result : object N) : completion (object N) :=
  match keys with
  | [] => Return result
  | key :: keys' =>
      match callback key result with
      | Return result' => forEach keys' callback result'
      | Throw e => Throw e
      end
  end.

(** The callback [(key) => { result[key] = obj[key]; }].  [obj[key]] is
    defined for every [key] of [Object.keys(obj)]; were it [undefined] the
    model leaves [result] as it is. *)
Definition copy_property (obj : value N) (key : string) (result : object N)
    : completion (object N) :=
  match get obj key with
  | Some x => put result key x
  | None => Return result
  end.

(** The host functions [JSON.stringify] and [JSON.parse]. *)
Variable JSON_stringify : value N -> string.
Variable JSON_parse : string -> completion (value N).

Definition getJSON (obj : value N) : string := JSON_stringify obj.

Definition fromJSON (proto : Prototype N) (json : string) : completion (object N) :=
  match JSON_parse json with
  | Throw e => Throw e
  | Return obj =>
      let result := {| prototype := Given proto; own := [] |} in
      match Object_keys obj with
      | Throw e => Throw e
      | Return keys => forEach keys (copy_property obj) result
      end
  end.

(** An object has each of its property names once. *)
Definition unique_keys (v : value N) : Prop :=
  match v with
  | Object ps => NoDup (fst <$> ps)
  | _ => True
  end.

(** The prototype's chain does not intercept an assignment to [key]. *)
Definition assignable (proto : Prototype N) (key : string) : Prop :=
  on_chain proto key = NotFound \/ on_chain proto key = WritableData.

End Objects.

(** The prototype of a class with the given methods and no accessors: its
    chain holds the methods and, from [Object.prototype], [__proto__]. *)
Definition class_prototype {N : Type} (methods : list string) : Prototype N :=
  {| on_chain := fun key =>
       if String.eqb key "__proto__" then ProtoSetter
       else if existsb (String.eqb key) methods then WritableData
       else NotFound |}.


(** ** A reference [JSON.stringify] and [JSON.parse]

    The two host functions are parameters of [getJSON] and [fromJSON].
    The closed examples need an instance: the JSON grammar on data whose
    numbers are integers, written without fraction or exponent. *)

Module JSON.

Definition hex_digit (n : nat) : ascii :=
  ascii_of_nat (if Nat.ltb n 10 then 48 + n else 87 + n).

(** A character inside a JSON string: the quote, the backslash and the
    control characters are escaped. *)
Definition quote_char (c : ascii) : string :=
  let n := nat_of_ascii c in
  if Nat.eqb n 34 then "\" ++ dquote
  else if Nat.eqb n 92 then "\\"
  else if Nat.eqb n 8 then "\b"
  else if Nat.eqb n 12 then "\f"
  else if Nat.eqb n 10 then "\n"
  else if Nat.eqb n 13 then "\r"
  else if Nat.eqb n 9 then "\t"
  else if Nat.ltb n 32 then
    "\u00" ++ String (hex_digit (n / 16)) (String (hex_digit (n mod 16)) EmptyString)
  else String c EmptyString.

Fixpoint quote_chars (s : string) : string :=
  match s with
  | EmptyString => EmptyString
  | String c s' => quote_char c ++ quote_chars s'
  end.

Definition quote (s : string) : string := dquote ++ quote_chars s ++ dquote.

Definition decimal (z : Z) : string := NilEmpty.string_of_int (Z.to_int z).

Fixpoint commas (l : list string) : string :=
  match l with
  | [] => EmptyString
  | [s] => s
  | s :: l' => s ++ "," ++ commas l'
  end.

(** [JSON.stringify(value)], without indentation. *)
Fixpoint stringify (v : value Z) : string :=
  match v with
  | Null => "null"
  | Boolean true => "true"
  | Boolean false => "false"
  | Number n => decimal n
  | Str s => quote s
  | Array l => "[" ++ commas (List.map stringify l) ++ "]"
  | Object ps =>
      "{" ++ commas (List.map (fun p => match p with
                                        | (k, x) => quote k ++ ":" ++ stringify x
                                        end) ps) ++ "}"
  end.

Definition is_ws (c : ascii) : bool :=
  let n := nat_of_ascii c in
  Nat.eqb n 32 || Nat.eqb n 9 || Nat.eqb n 10 || Nat.eqb n 13.

Fixpoint skip_ws (s : string) : string :=
  match s with
  | EmptyString => EmptyString
  | String c s' => if is_ws c then skip_ws s' else s
  end.

Fixpoint strip_prefix (p s : string) : option string :=
  match p, s with
  | EmptyString, _ => Some s
  | String a p', String b s' => if Ascii.eqb a b then strip_prefix p' s' else None
  | String _ _, EmptyString => None
  end.

(** The character a one-letter escape stands for. *)
Definition unescape (e : ascii) : option ascii :=
  let n := nat_of_ascii e in
  if Nat.eqb n 34 || Nat.eqb n 92 || Nat.eqb n 47 then Some e
  else if Nat.eqb n 98 then Some (ascii_of_nat 8)
  else if Nat.eqb n 102 then Some (ascii_of_nat 12)
  else if Nat.eqb n 110 then Some (ascii_of_nat 10)
  else if Nat.eqb n 114 then Some (ascii_of_nat 13)
  else if Nat.eqb n 116 then Some (ascii_of_nat 9)
  else None.

Definition hex_value (c : ascii) : option nat :=
  let n := nat_of_ascii c in
  if Nat.leb 48 n && Nat.leb n 57 then Some (n - 48)
  else if Nat.leb 97 n && Nat.leb n 102 then Some (n - 87)
  else if Nat.leb 65 n && Nat.leb n 70 then Some (n - 55)
  else None.

(** A four-digit escape, for the characters a Rocq string can hold. *)
Definition unicode_escape (a b c d : ascii) : option ascii :=
  match hex_value a, hex_value b, hex_value c, hex_value d with
  | Some 0, Some 0, Some x, Some y => Some (ascii_of_nat (16 * x + y))
  | _, _, _, _ => None
  end.

Definition prepend (c : ascii) (r : option (string * string)) : option (string * string) :=
  match r with
  | Some (s, rest) => Some (String c s, rest)
  | None => None
  end.

(** The characters of a string literal after its opening quote, up to the
    closing one. *)
Fixpoint parse_chars (s : string) : option (string * string) :=
  match s with
  | EmptyString => None
  | String c s' =>
      let n := nat_of_ascii c in
      if Nat.eqb n 34 then Some (EmptyString, s')
      else if Nat.eqb n 92 then
        match s' with
        | EmptyString => None
        | String e s'' =>
            match unescape e with
            | Some c' => prepend c' (parse_chars s'')
            | None =>
                if Nat.eqb (nat_of_ascii e) 117 then
                  match s'' with
                  | String a (String b (String x (String y rest))) =>
                      match unicode_escape a b x y with
                      | Some c' => prepend c' (parse_chars rest)
                      | None => None
                      end
                  | _ => None
                  end
                else None
            end
        end
      else if Nat.ltb n 32 then None
      else prepend c (parse_chars s')
  end.

Definition digit (c : ascii) : option nat :=
  let n := nat_of_ascii c in
  if Nat.leb 48 n && Nat.leb n 57 then Some (n - 48) else None.

Fixpoint parse_digits (s : string) (acc : Z) : Z * string :=
  match s with
  | EmptyString => (acc, s)
  | String c s' =>
      match digit c with
      | Some d => parse_digits s' (10 * acc + Z.of_nat d)%Z
      | None => (acc, s)
      end
  end.

(** An integer literal; a fraction or an exponent is refused. *)
Definition parse_number (s : string) : option (Z * string) :=
  let (negative, s1) :=
    match s with
    | String c s' => if Nat.eqb (nat_of_ascii c) 45 then (true, s') else (false, s)
    | EmptyString => (false, s)
    end in
  let finish (n : Z) (rest : string) : option (Z * string) :=
    let z := if negative then Z.opp n else n in
    match rest with
    | EmptyString => Some (z, rest)
    | String c _ =>
        let k := nat_of_ascii c in
        if Nat.eqb k 46 || Nat.eqb k 101 || Nat.eqb k 69 then None else Some (z, rest)
    end in
  match s1 with
  | EmptyString => None
  | String c s2 =>
      match digit c with
      | Some 0 => finish 0%Z s2
      | Some d => let (n, rest) := parse_digits s2 (Z.of_nat d) in finish n rest
      | None => None
      end
  end.

(** A property name that is an array index: a canonical decimal numeral
    below [2^32 - 1]. *)
Definition array_index (key : string) : option N :=
  match key with
  | EmptyString => None
  | String c rest =>
      match NilEmpty.uint_of_string key with
      | Some d =>
          let i := N.of_uint d in
          if (negb (Nat.eqb (nat_of_ascii c) 48) || String.eqb key "0")
             && (i <? 4294967295)%N
          then Some i else None
      | None => None
      end
  end.

Fixpoint insert_index (i : N) (key : string) (x : value Z)
    (ps : list (string * value Z)) : list (string * value Z) :=
  match ps with
  | [] => [(key, x)]
  | (k, y) :: ps' =>
      match array_index k with
      | Some j => if (j <? i)%N then (k, y) :: insert_index i key x ps'
                  else (key, x) :: ps
      | None => (key, x) :: ps
      end
  end.

(** Creating a property while parsing: a repeated name overwrites; index
    names come first, in increasing order, other names in creation order. *)
Definition define_property (key : string) (x : value Z)
    (ps : list (string * value Z)) : list (string * value Z) :=
  match assoc key ps with
  | Some _ => define key x ps
  | None =>
      match array_index key with
      | Some i => insert_index i key x ps
      | None => (ps ++ [(key, x)])%list
      end
  end.

Fixpoint parse_value (fuel : nat) (s : string) : option (value Z * string) :=
  match fuel with
  | 0 => None
  | S fuel' =>
      match skip_ws s with
      | EmptyString => None
      | String c s' as t =>
          let n := nat_of_ascii c in
          if Nat.eqb n 91 then
            match skip_ws s' with
            | EmptyString => None
            | String c1 s1 as t1 =>
                if Nat.eqb (nat_of_ascii c1) 93 then Some (Array [], s1)
                else match parse_elements fuel' t1 with
                     | Some (l, r) => Some (Array l, r)
                     | None => None
                     end
            end
          else if Nat.eqb n 123 then
            match skip_ws s' with
            | EmptyString => None
            | String c1 s1 as t1 =>
                if Nat.eqb (nat_of_ascii c1) 125 then Some (Object [], s1)
                else match parse_members fuel' t1 [] with
                     | Some (ps, r) => Some (Object ps, r)
                     | None => None
                     end
            end
          else if Nat.eqb n 34 then
            match parse_chars s' with
            | Some (str, r) => Some (Str str, r)
            | None => None
            end
          else
            match strip_prefix "null" t with
            | Some r => Some (Null, r)
            | None =>
            match strip_prefix "true" t with
            | Some r => Some (Boolean true, r)
            | None =>
            match strip_prefix "false" t with
            | Some r => Some (Boolean false, r)
            | None =>
            match parse_number t with
            | Some (z, r) => Some (Number z, r)
            | None => None
            end end end end
      end
  end
with parse_elements (fuel : nat) (s : string) : option (list (value Z) * string) :=
  match fuel with
  | 0 => None
  | S fuel' =>
      match parse_value fuel' s with
      | None => None
      | Some (v, r) =>
          match skip_ws r with
          | EmptyString => None
          | String c r' =>
              if Nat.eqb (nat_of_ascii c) 44 then
                match parse_elements fuel' r' with
                | Some (l, r'') => Some (v :: l, r'')
                | None => None
                end
              else if Nat.eqb (nat_of_ascii c) 93 then Some ([v], r')
              else None
          end
      end
  end
with parse_members (fuel : nat) (s : string) (acc : list (string * value Z))
    : option (list (string * value Z) * string) :=
  match fuel with
  | 0 => None
  | S fuel' =>
      match skip_ws s with
      | EmptyString => None
      | String c s' =>
          if negb (Nat.eqb (nat_of_ascii c) 34) then None else
          match parse_chars s' with
          | None => None
          | Some (key, r) =>
              match skip_ws r with
              | EmptyString => None
              | String c1 r1 =>
                  if negb (Nat.eqb (nat_of_ascii c1) 58) then None else
                  match parse_value fuel' r1 with
                  | None => None
                  | Some (v, r2) =>
                      let acc' := define_property key v acc in
                      match skip_ws r2 with
                      | EmptyString => None
                      | String c2 r3 =>
                          if Nat.eqb (nat_of_ascii c2) 44 then parse_members fuel' r3 acc'
                          else if Nat.eqb (nat_of_ascii c2) 125 then Some (acc', r3)
                          else None
                      end
                  end
              end
          end
      end
  end.

(** [JSON.parse(text)]. *)
Definition parse (text : string) : completion (value Z) :=
  match parse_value (2 * String.length text + 2) text with
  | Some (v, rest) =>
      match skip_ws rest with
      | EmptyString => Return v
      | String _ _ => Throw (SyntaxError "Unexpected token in JSON")
      end
  | None => Throw (SyntaxError "Unexpected token in JSON")
  end.

End JSON.

(** The documented example [fromJSON(Circle.prototype, '{"radius":10}')],
    with the text produced by [getJSON]. *)
Definition Circle_prototype : Prototype Z := class_prototype ["getCircumference"].

Definition example_circle : completion (object Z) :=
  fromJSON JSON.parse Circle_prototype (getJSON JSON.stringify (Object [("radius", Number 10%Z)])).


(** ** [class CreateElement] *)

Module CreateElement.

(** The seven fields the constructor creates. *)
Record instance : Type := Build {
  tags : string;
  ids : string;
  classes : string;
  attrs : string;
  pseudoClasses : string;
  pseudoElements : string;
  combines : string
}.

(** References to instances, and the store that holds them. *)
Abbreviation ref := nat.
Abbreviation heap := (gmap nat instance).

(** Assignments [this.f = v]. *)
Definition set_tags (v : string) (o : instance) : instance :=
  Build v (ids o) (classes o) (attrs o) (pseudoClasses o) (pseudoElements o) (combines o).
Definition set_ids (v : string) (o : instance) : instance :=
  Build (tags o) v (classes o) (attrs o) (pseudoClasses o) (pseudoElements o) (combines o).
Definition set_classes (v : string) (o : instance) : instance :=
  Build (tags o) (ids o) v (attrs o) (pseudoClasses o) (pseudoElements o) (combines o).
Definition set_attrs (v : string) (o : instance) : instance :=
  Build (tags o) (ids o) (classes o) v (pseudoClasses o) (pseudoElements o) (combines o).
Definition set_pseudoClasses (v : string) (o : instance) : instance :=
  Build (tags o) (ids o) (classes o) (attrs o) v (pseudoElements o) (combines o).
Definition set_pseudoElements (v : string) (o : instance) : instance :=
  Build (tags o) (ids o) (classes o) (attrs o) (pseudoClasses o) v (combines o).
Definition set_combines (v : string) (o : instance) : instance :=
  Build (tags o) (ids o) (classes o) (attrs o) (pseudoClasses o) (pseudoElements o) v.

(** [this.f]: reading a field through a reference.  A reference that
    designates no instance cannot arise in JavaScript; the model makes
    the access throw. *)
Definition read (this : ref) (f : instance -> string) : M heap string :=
  fun h =>
    match h !! this with
    | Some o => (Return (f o), h)
    | None => (Throw (TypeError "not an instance"), h)
    end.

(** [this.f = v]. *)
Definition write (this : ref) (set : string -> instance -> instance)
    (v : string) : M heap unit :=
  fun h =>
    match h !! this with
    | Some o => (Return tt, <[this := set v o]> h)
    | None => (Throw (TypeError "not an instance"), h)
    end.

(** [constructor()]: every field starts as the empty string. *)
Definition constructor : instance := Build "" "" "" "" "" "" "".

(** [new CreateElement()]: a reference the store does not use yet. *)
Definition new : M heap ref :=
  fun h => let this := fresh (dom h) in (Return this, <[this := constructor]> h).

(** The two messages the methods throw. *)
Definition once_message : string :=
  "Element, id and pseudo-element should not occur more then one time inside the selector".
Definition order_message : string :=
  "Selector parts should be arranged in the following order: element, id, class, attribute, pseudo-class, pseudo-element".

Definition checkFollowing (this : ref) (selector : string) : M heap bool :=
  if String.eqb selector "element" then
    let! i := read this ids in
    let! c := read this classes in
    let! a := read this attrs in
    let! pc := read this pseudoClasses in
    let! pe := read this pseudoElements in
    ret (negb (truthy (i ||| c ||| a ||| pc ||| pe)))
  else if String.eqb selector "id" then
    let! c := read this classes in
    let! a := read this attrs in
    let! pc := read this pseudoClasses in
    let! pe := read this pseudoElements in
    ret (negb (truthy (c ||| a ||| pc ||| pe)))
  else if String.eqb selector "class" then
    let! a := read this attrs in
    let! pc := read this pseudoClasses in
    let! pe := read this pseudoElements in
    ret (negb (truthy (a ||| pc ||| pe)))
  else if String.eqb selector "attr" then
    let! pc := read this pseudoClasses in
    let! pe := read this pseudoElements in
    ret (negb (truthy (pc ||| pe)))
  else if String.eqb selector "pseudoClass" then
    let! pe := read this pseudoElements in
    ret (negb (truthy pe))
  else
    ret true.

Definition element (this : ref) (value : string) : M heap ref :=
  let! t := read this tags in
  if truthy t then throw (Error once_message) else
  let! ok := checkFollowing this "element" in
  if negb ok then throw (Error order_message) else
  write this set_tags value ;;;
  ret this.

Definition id (this : ref) (value : string) : M heap ref :=
  let! i := read this ids in
  if truthy i then throw (Error once_message) else
  let! ok := checkFollowing this "id" in
  if negb ok then throw (Error order_message) else
  write this set_ids ("#" ++ value) ;;;
  ret this.

Definition class (this : ref) (value : string) : M heap ref :=
  let! ok := checkFollowing this "class" in
  if negb ok then throw (Error order_message) else
  let! c := read this classes in
  write this set_classes (c ++ "." ++ value) ;;;
  ret this.

Definition attr (this : ref) (value : string) : M heap ref :=
  let! ok := checkFollowing this "attr" in
  if negb ok then throw (Error order_message) else
  write this set_attrs ("[" ++ value ++ "]") ;;;
  ret this.

Definition pseudoClass (this : ref) (value : string) : M heap ref :=
  let! ok := checkFollowing this "pseudoClass" in
  if negb ok then throw (Error order_message) else
  let! pc := read this pseudoClasses in
  write this set_pseudoClasses (pc ++ ":" ++ value) ;;;
  ret this.

Definition pseudoElement (this : ref) (value : string) : M heap ref :=
  let! pe := read this pseudoElements in
  if truthy pe then throw (Error once_message) else
  write this set_pseudoElements ("::" ++ value) ;;;
  ret this.

Definition stringify (this : ref) : M heap string :=
  let! cb := read this combines in
  if truthy cb then read this combines else
  let! t := read this tags in
  let! i := read this ids in
  let! c := read this classes in
  let! a := read this attrs in
  let! pc := read this pseudoClasses in
  let! pe := read this pseudoElements in
  ret (t ++ i ++ c ++ a ++ pc ++ pe).

Definition combine (this selector1 : ref) (combinator : string)
    (selector2 : ref) : M heap ref :=
  let! s1 := stringify selector1 in
  let! s2 := stringify selector2 in
  write this set_combines (s1 ++ " " ++ combinator ++ " " ++ s2) ;;;
  ret this.

End CreateElement.

(** ** The facade [cssSelectorBuilder] *)

Module cssSelectorBuilder.

Import CreateElement.

Definition element (value : string) : M heap ref :=
  let! this := new in CreateElement.element this value.

Definition id (value : string) : M heap ref :=
  let! this := new in CreateElement.id this value.

Definition class (value : string) : M heap ref :=
  let! this := new in CreateElement.class this value.

Definition attr (value : string) : M heap ref :=
  let! this := new in CreateElement.attr this value.

Definition pseudoClass (value : string) : M heap ref :=
  let! this := new in CreateElement.pseudoClass this value.

Definition pseudoElement (value : string) : M heap ref :=
  let! this := new in CreateElement.pseudoElement this value.

Definition combine (selector1 : ref) (combinator : string)
    (selector2 : ref) : M heap ref :=
  let! this := new in CreateElement.combine this selector1 combinator selector2.

End cssSelectorBuilder.

(** The documented example
    [builder.element('a').attr('href$=".png"').pseudoClass('focus').stringify()]. *)
Definition example_png : M CreateElement.heap string :=
  let! e := cssSelectorBuilder.element "a" in
  let! e := CreateElement.attr e ("href$=" ++ dquote ++ ".png" ++ dquote) in
  let! e := CreateElement.pseudoClass e "focus" in
  CreateElement.stringify e.

(** ** Chains of method calls *)

(** One fragment-method call, as data: [Element v] is [.element(v)]. *)
Inductive call : Type :=
| Element (value : string)
| Id (value : string)
| Class (value : string)
| Attr (value : string)
| PseudoClass (value : string)
| PseudoElement (value : string).

(** [this.m(v)] for the call [m(v)]. *)
Definition invoke (this : CreateElement.ref) (c : call) : M CreateElement.heap CreateElement.ref :=
  match c with
  | Element v => CreateElement.element this v
  | Id v => CreateElement.id this v
  | Class v => CreateElement.class this v
  | Attr v => CreateElement.attr this v
  | PseudoClass v => CreateElement.pseudoClass this v
  | PseudoElement v => CreateElement.pseudoElement this v
  end.

(** [this.m1(v1).m2(v2)...]: each call is made on what the previous one
    returned; the first throw ends the chain. *)
Fixpoint chain (this : CreateElement.ref) (cs : list call) : M CreateElement.heap CreateElement.ref :=
  match cs with
  | [] => ret this
  | c :: cs' => let! r := invoke this c in chain r cs'
  end.

(** ** The instance-level reading of the methods

    What a method computes from, and does to, the one instance it is
    invoked on.  These are the values the lemmas of the second part show
    the methods above to compute; they are not a second implementation. *)

Module Instance.

Import CreateElement.

(** The value [checkFollowing(selector)] returns on instance [o]. *)
Definition check (selector : string) (o : instance) : bool :=
  if String.eqb selector "element" then
    negb (truthy (ids o ||| classes o ||| attrs o ||| pseudoClasses o ||| pseudoElements o))
  else if String.eqb selector "id" then
    negb (truthy (classes o ||| attrs o ||| pseudoClasses o ||| pseudoElements o))
  else if String.eqb selector "class" then
    negb (truthy (attrs o ||| pseudoClasses o ||| pseudoElements o))
  else if String.eqb selector "attr" then
    negb (truthy (pseudoClasses o ||| pseudoElements o))
  else if String.eqb selector "pseudoClass" then
    negb (truthy (pseudoElements o))
  else true.

(** The string [stringify()] returns on instance [o]. *)
Definition render (o : instance) : string :=
  if truthy (combines o) then combines o
  else tags o ++ ids o ++ classes o ++ attrs o ++ pseudoClasses o ++ pseudoElements o.

(** The effect of one call on instance [o]: the instance it leaves, or
    the error it throws. *)
Definition step (c : call) (o : instance) : completion instance :=
  match c with
  | Element v =>
      if truthy (tags o) then Throw (Error once_message)
      else if negb (check "element" o) then Throw (Error order_message)
      else Return (set_tags v o)
  | Id v =>
      if truthy (ids o) then Throw (Error once_message)
      else if negb (check "id" o) then Throw (Error order_message)
      else Return (set_ids ("#" ++ v) o)
  | Class v =>
      if negb (check "class" o) then Throw (Error order_message)
      else Return (set_classes (classes o ++ "." ++ v) o)
  | Attr v =>
      if negb (check "attr" o) then Throw (Error order_message)
      else Return (set_attrs ("[" ++ v ++ "]") o)
  | PseudoClass v =>
      if negb (check "pseudoClass" o) then Throw (Error order_message)
      else Return (set_pseudoClasses (pseudoClasses o ++ ":" ++ v) o)
  | PseudoElement v =>
      if truthy (pseudoElements o) then Throw (Error once_message)
      else Return (set_pseudoElements ("::" ++ v) o)
  end.

(** A chain of calls on instance [o]: the instance left by the calls
    that succeeded, and how the chain completed. *)
Fixpoint steps (cs : list call) (o : instance) : completion unit * instance :=
  match cs with
  | [] => (Return tt, o)
  | c :: cs' =>
      match step c o with
      | Return o' => steps cs' o'
      | Throw e => (Throw e, o)
      end
  end.

End Instance.

(** ** The vocabulary of the specification *)

(** The two errors of the specification, told apart by their message. *)
Definition DuplicateError : exn := Error CreateElement.once_message.
Definition OrderViolation : exn := Error CreateElement.order_message.

(** The six fragment kinds, listed in the canonical order. *)
Inductive kind : Type :=
| KElement | KId | KClass | KAttribute | KPseudoClass | KPseudoElement.

Definition canonical_order : list kind :=
  [KElement; KId; KClass; KAttribute; KPseudoClass; KPseudoElement].

(** Position of a kind in the canonical order. *)
Definition rank (k : kind) : nat :=
  match k with
  | KElement => 0 | KId => 1 | KClass => 2
  | KAttribute => 3 | KPseudoClass => 4 | KPseudoElement => 5
  end.

(** The field that stores the fragments of a kind. *)
Definition fragment (k : kind) (o : CreateElement.instance) : string :=
  match k with
  | KElement => CreateElement.tags o
  | KId => CreateElement.ids o
  | KClass => CreateElement.classes o
  | KAttribute => CreateElement.attrs o
  | KPseudoClass => CreateElement.pseudoClasses o
  | KPseudoElement => CreateElement.pseudoElements o
  end.

(** The kind a call sets. *)
Definition kind_of (c : call) : kind :=
  match c with
  | Element _ => KElement | Id _ => KId | Class _ => KClass
  | Attr _ => KAttribute | PseudoClass _ => KPseudoClass
  | PseudoElement _ => KPseudoElement
  end.

(** Some fragment of a kind strictly after [k] in the canonical order is
    non-empty on [o]. *)
Definition later_fragment_set (k : kind) (o : CreateElement.instance) : bool :=
  existsb (fun k' => (rank k <? rank k')%nat && truthy (fragment k' o)) canonical_order.

(** The fragment of the call's own kind is already non-empty and the kind
    admits one occurrence only. *)
Definition repeats (c : call) (o : CreateElement.instance) : bool :=
  match c with
  | Element _ | Id _ | PseudoElement _ => truthy (fragment (kind_of c) o)
  | Class _ | Attr _ | PseudoClass _ => false
  end.

(** Concatenation of a list of strings. *)
Definition join (l : list string) : string := foldr String.append "" l.

(** The values passed to the calls of one kind, in call order. *)
Definition values (k : kind) (cs : list call) : list string :=
  omap (fun c =>
          match c, k with
          | Element v, KElement | Id v, KId | Class v, KClass
          | Attr v, KAttribute | PseudoClass v, KPseudoClass
          | PseudoElement v, KPseudoElement => Some v
          | _, _ => None
          end) cs.

(** The fragment a single-slot kind holds after the calls [cs]: the
    punctuated value of the latest call of that kind, nothing if there was
    none. *)
Definition slot (k : kind) (pre post : string) (cs : list call) : string :=
  match last (values k cs) with
  | Some v => pre ++ v ++ post
  | None => ""
  end.

(** The fragments an accumulating kind holds after the calls [cs]. *)
Definition accumulated (k : kind) (pre : string) (cs : list call) : string :=
  join (map (String.append pre) (values k cs)).

(** The selector text of the specification for the calls [cs]: the
    fragments that were set, in the canonical order, each with its
    punctuation. *)
Definition canonical_text (cs : list call) : string :=
  slot KElement "" "" cs ++ slot KId "#" "" cs ++ accumulated KClass "." cs
  ++ slot KAttribute "[" "]" cs ++ accumulated KPseudoClass ":" cs
  ++ slot KPseudoElement "::" "" cs.

(** The fields of an instance hold the specification's fragments for the
    calls made on it since its construction. *)
Definition holds (cs : list call) (o : CreateElement.instance) : Prop :=
  CreateElement.tags o = slot KElement "" "" cs
  /\ CreateElement.ids o = slot KId "#" "" cs
  /\ CreateElement.classes o = accumulated KClass "." cs
  /\ CreateElement.attrs o = slot KAttribute "[" "]" cs
  /\ CreateElement.pseudoClasses o = accumulated KPseudoClass ":" cs
  /\ CreateElement.pseudoElements o = slot KPseudoElement "::" "" cs
  /\ CreateElement.combines o = "".


(** The documented nested combination
    [combine(div#main.container.draggable, '+',
             combine(table#data, '~', combine(tr:nth-of-type(even), ' ', td:nth-of-type(even))))]. *)
Definition example_nested : M CreateElement.heap string :=
  let! d := cssSelectorBuilder.element "div" in
  let! d := chain d [Id "main"; Class "container"; Class "draggable"] in
  let! t := cssSelectorBuilder.element "table" in
  let! t := CreateElement.id t "data" in
  let! r := cssSelectorBuilder.element "tr" in
  let! r := CreateElement.pseudoClass r "nth-of-type(even)" in
  let! c := cssSelectorBuilder.element "td" in
  let! c := CreateElement.pseudoClass c "nth-of-type(even)" in
  let! inner := cssSelectorBuilder.combine r " " c in
  let! middle := cssSelectorBuilder.combine t "~" inner in
  let! outer := cssSelectorBuilder.combine d "+" middle in
  CreateElement.stringify outer.

(** The name under which a kind is passed to [checkFollowing]. *)
Definition selector_name (k : kind) : string :=
  match k with
  | KElement => "element" | KId => "id" | KClass => "class"
  | KAttribute => "attr" | KPseudoClass => "pseudoClass"
  | KPseudoElement => "pseudoElement"
  end.

(** The call leaves a non-empty fragment in a slot that admits one
    occurrence: [id] and [pseudoElement] always do (their punctuation is
    part of the fragment), [element] does unless its name is empty. *)
Definition fills_slot (c : call) : bool :=
  match c with
  | Element v => truthy v
  | Id _ | PseudoElement _ => true
  | Class _ | Attr _ | PseudoClass _ => false
  end.

(** [combine(element('a'), '+', element('b')).pseudoClass('hover')]: a
    selector whose combined expression is set and on which [pseudoClass]
    has then been called. *)
Definition example_combined_pseudoClass : M CreateElement.heap CreateElement.ref :=
  let! a := cssSelectorBuilder.element "a" in
  let! b := cssSelectorBuilder.element "b" in
  let! t := cssSelectorBuilder.combine a "+" b in
  CreateElement.pseudoClass t "hover".

(** The string a call assigns to the field of its kind on instance [o]. *)
Definition assigned (c : call) (o : CreateElement.instance) : string :=
  match c with
  | Element v => v
  | Id v => "#" ++ v
  | Class v => CreateElement.classes o ++ "." ++ v
  | Attr v => "[" ++ v ++ "]"
  | PseudoClass v => CreateElement.pseudoClasses o ++ ":" ++ v
  | PseudoElement v => "::" ++ v
  end.

(** An own property named [__proto__], as [JSON.parse] creates it. *)
Definition example_proto_key : value Z :=
  Object [("__proto__", Object [("a", Number 1%Z)]); ("x", Number 2%Z)].

(** ** Further vocabulary *)

(** The facade's entry point for a call: [cssSelectorBuilder.m(v)]. *)
Definition entry (c : call) : M CreateElement.heap CreateElement.ref :=
  match c with
  | Element v => cssSelectorBuilder.element v
  | Id v => cssSelectorBuilder.id v
  | Class v => cssSelectorBuilder.class v
  | Attr v => cssSelectorBuilder.attr v
  | PseudoClass v => cssSelectorBuilder.pseudoClass v
  | PseudoElement v => cssSelectorBuilder.pseudoElement v
  end.

(** The text of one fragment: the value with its punctuation. *)
Definition fragment_text (c : call) : string :=
  match c with
  | Element v => v
  | Id v => "#" ++ v
  | Class v => "." ++ v
  | Attr v => "[" ++ v ++ "]"
  | PseudoClass v => ":" ++ v
  | PseudoElement v => "::" ++ v
  end.

(** [combine(combine(a, c, b), d, e).stringify()]. *)
Definition combine_left (a : CreateElement.ref) (c : string) (b : CreateElement.ref)
    (d : string) (e : CreateElement.ref) : M CreateElement.heap string :=
  let! ab := cssSelectorBuilder.combine a c b in
  let! t := cssSelectorBuilder.combine ab d e in
  CreateElement.stringify t.

(** [combine(a, c, combine(b, d, e)).stringify()]. *)
Definition combine_right (a : CreateElement.ref) (c : string) (b : CreateElement.ref)
    (d : string) (e : CreateElement.ref) : M CreateElement.heap string :=
  let! be := cssSelectorBuilder.combine b d e in
  let! t := cssSelectorBuilder.combine a c be in
  CreateElement.stringify t.

(** The call leaves a non-empty fragment when it succeeds: every call does
    (its punctuation is part of the fragment) except [element('')]. *)
Definition leaves_fragment (c : call) : bool :=
  match c with
  | Element v => truthy v
  | Id _ | Class _ | Attr _ | PseudoClass _ | PseudoElement _ => true
  end.

(** The kinds that may occur once. *)
Definition single (k : kind) : bool :=
  match k with
  | KElement | KId | KPseudoElement => true
  | KClass | KAttribute | KPseudoClass => false
  end.

(** An earlier call [p] rules out the call [c]: [p] left a fragment of a
    later kind than [c], or of the same kind when that kind may occur
    once. *)
Definition forbids (p c : call) : bool :=
  leaves_fragment p
  && ((rank (kind_of c) <? rank (kind_of p))%nat
      || (single (kind_of c) && (rank (kind_of p) =? rank (kind_of c))%nat)).

(** No call of [pre] rules out [c]. *)
Definition admitted (pre : list call) (c : call) : bool :=
  forallb (fun p => negb (forbids p c)) pre.

(** Every call of [cs] is admitted after [pre] and the calls before it. *)
Fixpoint in_order (pre cs : list call) : bool :=
  match cs with
  | [] => true
  | c :: cs' => admitted pre c && in_order (pre ++ [c]) cs'
  end.

(** Some call of [pre] left a fragment of kind [k]. *)
Definition filled (pre : list call) (k : kind) : bool :=
  existsb (fun p => leaves_fragment p && (rank (kind_of p) =? rank k)%nat) pre.

(** The fields of [o] are non-empty exactly for the kinds of which the
    calls [pre] left a fragment. *)
Definition records (pre : list call) (o : CreateElement.instance) : Prop :=
  forall k, truthy (fragment k o) = filled pre k.

(** The chain makes the property read-only. *)
Definition is_read_only {N : Type} (i : inherited N) : bool :=
  match i with
  | ReadOnly => true
  | NotFound | WritableData | Setter _ | ProtoSetter => false
  end.

(** The properties an assignment through [proto] does not drop. *)
Definition writable_through {N : Type} (proto : Prototype N) (p : string * value N) : bool :=
  negb (is_read_only (on_chain proto (fst p))).

(** A value that can become a prototype: an object or an array. *)
Definition is_object {N : Type} (x : value N) : bool :=
  match x with
  | Object _ | Array _ => true
  | Null | Boolean _ | Number _ | Str _ => false
  end.

(** No key of [keys] reaches a user-defined setter behind the slot. *)
Definition no_setter {N : Type} (p : prototype_slot N) (keys : list string) : Prop :=
  forall key set, key ∈ keys -> find_inherited p key <> Setter set.

(** A prototype with a read-only property [area] (a getter without
    setter), beside [__proto__] from [Object.prototype]. *)
Definition Shape_prototype : Prototype Z :=
  {| on_chain := fun key =>
       if String.eqb key "__proto__" then ProtoSetter
       else if String.eqb key "area" then ReadOnly
       else NotFound |}.

(** The prototype an assignment of [x] to [__proto__] leaves on an object
    whose prototype was [proto]: an object or array replaces it, [null]
    removes it, any other value is ignored. *)
Definition after_proto_assignment {N : Type} (proto : Prototype N) (x : value N)
    : prototype_slot N :=
  match x with
  | Object _ | Array _ => Parsed x
  | Null => NoPrototype
  | Boolean _ | Number _ | Str _ => Given proto
  end.

(** A prototype with an accessor [set radius(v)] that rejects negative
    numbers and stores the others in [_radius]. *)
Definition Checked_prototype : Prototype Z :=
  {| on_chain := fun key =>
       if String.eqb key "__proto__" then ProtoSetter
       else if String.eqb key "radius" then
         Setter (fun own x =>
                   match x with
                   | Number n =>
                       if (n <? 0)%Z then Throw (Error "negative radius")
                       else Return (define "_radius" x own)
                   | _ => Return (define "_radius" x own)
                   end)
       else NotFound |}.

(** A caller making fragment calls one after another, each on a selector
    of its choice, and going on after a call that throws: the store each
    call leaves is the store the next one starts from. *)
Definition perform (ops : list (CreateElement.ref * call)) (h : CreateElement.heap)
    : CreateElement.heap :=
  fold_left (fun h op => snd (invoke (fst op) (snd op) h)) ops h.

(** An assignment of [x] to [__proto__] replaces the prototype: [x] is an
    object, an array or [null]. *)
Definition replaces_prototype {N : Type} (x : value N) : bool :=
  match x with
  | Object _ | Array _ | Null => true
  | Boolean _ | Number _ | Str _ => false
  end.

(** [Checked_prototype] with a read-only property [kind] beside the
    setter for [radius]. *)
Definition Guarded_prototype : Prototype Z :=
  {| on_chain := fun key =>
       if String.eqb key "kind" then ReadOnly else on_chain Checked_prototype key |}.

Example example_png_run :
  fst (example_png ∅) = Return ("a[href$=" ++ dquote ++ ".png" ++ dquote ++ "]:focus").
Proof. vm_compute. reflexivity. Qed.


(** * Part II: properties *)

(** ** Strings *)

Lemma string_app_cons (a : ascii) (s t : string) : String a s ++ t = String a (s ++ t).
Proof. reflexivity. Qed.

Lemma string_app_nil_l (s : string) : "" ++ s = s.
Proof. reflexivity. Qed.

Lemma string_app_nil_r (s : string) : s ++ "" = s.
Proof.
  induction s as [|a s IH]; [reflexivity|].
  now rewrite string_app_cons, IH.
Qed.

Lemma string_app_assoc (a b c : string) : (a ++ b) ++ c = a ++ b ++ c.
Proof.
  induction a as [|x a IH]; [reflexivity|].
  now rewrite !string_app_cons, IH.
Qed.

Lemma truthy_false (s : string) : truthy s = false <-> s = "".
Proof. destruct s; simpl; split; congruence. Qed.

Lemma truthy_or (a b : string) : truthy (a ||| b) = truthy a || truthy b.
Proof. unfold JS.or. destruct a; reflexivity. Qed.

Lemma truthy_app_l (a b : string) : truthy a = true -> truthy (a ++ b) = true.
Proof. destruct a; [discriminate | reflexivity]. Qed.

(** ** The methods compute the instance-level reading *)

Section Runs.

Import CreateElement Instance.

Variables (h : heap) (this : ref) (o : instance).
Hypothesis Hthis : h !! this = Some o.

Lemma read_run f : read this f h = (Return (f o), h).
Proof using Hthis. unfold read. now rewrite Hthis. Qed.

Lemma write_run set v : write this set v h = (Return tt, <[this := set v o]> h).
Proof using Hthis. unfold write. now rewrite Hthis. Qed.

Lemma checkFollowing_run selector :
  checkFollowing this selector h = (Return (check selector o), h).
Proof using Hthis.
  unfold checkFollowing, check.
  repeat (destruct (String.eqb selector _));
    unfold JS.bind; rewrite ?read_run; reflexivity.
Qed.

Lemma stringify_run : stringify this h = (Return (render o), h).
Proof using Hthis.
  unfold stringify, render, JS.bind. rewrite !read_run.
  destruct (truthy (combines o)); rewrite ?read_run; reflexivity.
Qed.

Lemma invoke_run c :
  invoke this c h =
  match step c o with
  | Return o' => (Return this, <[this := o']> h)
  | Throw e => (Throw e, h)
  end.
Proof using Hthis.
  destruct c; unfold invoke, step;
    unfold element, id, class, attr, pseudoClass, pseudoElement, JS.bind, JS.throw, JS.ret;
    repeat first
      [ rewrite read_run
      | rewrite checkFollowing_run
      | rewrite write_run
      | match goal with
        | |- context [if ?b then _ else _] => destruct b
        end ];
    reflexivity.
Qed.

End Runs.

Section Chains.

Import CreateElement Instance.

Lemma new_run (h : heap) :
  new h = (Return (fresh (dom h)), <[fresh (dom h) := constructor]> h)
  /\ h !! fresh (dom h) = None.
Proof.
  split; [reflexivity|].
  apply not_elem_of_dom, is_fresh.
Qed.

(** A chain on [this] only ever touches [this], and leaves there what
    the instance-level chain computes. *)
Lemma chain_run (cs : list call) :
  forall (h : heap) (this : ref) (o : instance),
    h !! this = Some o ->
    chain this cs h =
    (match fst (steps cs o) with
     | Return _ => Return this
     | Throw e => Throw e
     end, <[this := snd (steps cs o)]> h).
Proof.
  induction cs as [|c cs IH]; intros h this o Hthis; simpl.
  - unfold JS.ret. now rewrite insert_id.
  - unfold JS.bind. rewrite (invoke_run h this o Hthis).
    destruct (step c o) as [o'|e]; simpl.
    + rewrite (IH _ this o' (lookup_insert_eq h this o')).
      now rewrite insert_insert_eq.
    + now rewrite insert_id.
Qed.

Lemma steps_snoc (cs : list call) (c : call) :
  forall o,
    steps (cs ++ [c]) o =
    match steps cs o with
    | (Return _, o') =>
        match step c o' with
        | Return o'' => (Return tt, o'')
        | Throw e => (Throw e, o')
        end
    | (Throw e, o') => (Throw e, o')
    end.
Proof.
  induction cs as [|c' cs IH]; intros o; simpl.
  - destruct (step c o); reflexivity.
  - destruct (step c' o) as [o'|e]; [apply IH | reflexivity].
Qed.

End Chains.

(** ** The text of the specification, call by call *)

Lemma join_app (l1 l2 : list string) : join (l1 ++ l2)%list = join l1 ++ join l2.
Proof.
  induction l1 as [|s l1 IH]; [reflexivity|].
  change (s ++ join (l1 ++ l2)%list = (s ++ join l1) ++ join l2).
  now rewrite IH, string_app_assoc.
Qed.

Lemma values_snoc (k : kind) (cs : list call) (c : call) :
  values k (cs ++ [c]) = (values k cs ++ values k [c])%list.
Proof. unfold values. apply omap_app. Qed.

Lemma slot_snoc_same k pre post cs c v :
  values k [c] = [v] -> slot k pre post (cs ++ [c]) = pre ++ v ++ post.
Proof. intros H. unfold slot. now rewrite values_snoc, H, last_snoc. Qed.

Lemma slot_snoc_other k pre post cs c :
  values k [c] = [] -> slot k pre post (cs ++ [c]) = slot k pre post cs.
Proof. intros H. unfold slot. now rewrite values_snoc, H, app_nil_r. Qed.

Lemma accumulated_snoc_same k pre cs c v :
  values k [c] = [v] -> accumulated k pre (cs ++ [c]) = accumulated k pre cs ++ pre ++ v.
Proof.
  intros H. unfold accumulated.
  rewrite values_snoc, H, map_app, join_app. simpl.
  now rewrite string_app_nil_r.
Qed.

Lemma accumulated_snoc_other k pre cs c :
  values k [c] = [] -> accumulated k pre (cs ++ [c]) = accumulated k pre cs.
Proof. intros H. unfold accumulated. now rewrite values_snoc, H, app_nil_r. Qed.

Lemma step_holds (cs : list call) (c : call) (o o' : CreateElement.instance) :
  holds cs o -> Instance.step c o = Return o' -> holds (cs ++ [c]) o'.
Proof.
  unfold holds. intros (Ht & Hi & Hc & Ha & Hpc & Hpe & Hcb) Hstep.
  destruct c; simpl in Hstep;
    repeat match type of Hstep with
           | (if ?b then _ else _) = _ => destruct b; [try discriminate | try discriminate]
           end;
    injection Hstep as <-; simpl;
    rewrite ?Ht, ?Hi, ?Hc, ?Ha, ?Hpc, ?Hpe, ?Hcb;
    repeat split;
    first [ reflexivity
          | symmetry; apply slot_snoc_other; reflexivity
          | symmetry; apply accumulated_snoc_other; reflexivity
          | symmetry; erewrite slot_snoc_same by reflexivity;
            rewrite ?string_app_nil_r; reflexivity
          | symmetry; erewrite accumulated_snoc_same by reflexivity; reflexivity ].
Qed.

Lemma steps_holds (cs : list call) :
  forall o, fst (Instance.steps cs CreateElement.constructor) = Return tt ->
            o = snd (Instance.steps cs CreateElement.constructor) ->
            holds cs o.
Proof.
  induction cs as [|c cs IH] using rev_ind; intros o Hok ->.
  - repeat split.
  - rewrite steps_snoc in Hok |- *.
    destruct (Instance.steps cs CreateElement.constructor) as [[[]|e] o'] eqn:E;
      simpl in *; [|discriminate].
    destruct (Instance.step c o') as [o''|e] eqn:Es; simpl in *; [|discriminate].
    eapply step_holds; [apply IH; reflexivity | exact Es].
Qed.

(** ** Rendering *)

(** C1.  On every instance whose [combines] is unset, [stringify()] returns
    the concatenation [tags + ids + classes + attrs + pseudoClasses +
    pseudoElements], the canonical order; on an instance built by [new]
    and any chain of fragment calls that all succeeded, that string is the
    text of the specification for those calls: the fragments that were
    set, in the canonical order, with [#] before the id name, [.] before
    each class name, [[] and []] around the attribute expression, [:]
    before each pseudo-class name and [::] before the pseudo-element name;
    and [element('a').attr('href$=".png"').pseudoClass('focus')] renders
    as [a[href$=".png"]:focus]. *)
Theorem stringify_canonical_order :
  (forall (h : CreateElement.heap) (this : CreateElement.ref) (o : CreateElement.instance),
      h !! this = Some o ->
      truthy (CreateElement.combines o) = false ->
      CreateElement.stringify this h =
      (Return (CreateElement.tags o ++ CreateElement.ids o ++ CreateElement.classes o
               ++ CreateElement.attrs o ++ CreateElement.pseudoClasses o
               ++ CreateElement.pseudoElements o), h))
  /\ (forall (h h' : CreateElement.heap) (cs : list call) (this : CreateElement.ref),
        (let! s := CreateElement.new in chain s cs) h = (Return this, h') ->
        CreateElement.stringify this h' = (Return (canonical_text cs), h'))
  /\ fst (example_png ∅) = Return ("a[href$=" ++ dquote ++ ".png" ++ dquote ++ "]:focus").
Proof.
  split; [|split].
  - intros h this o Hthis Hcb.
    rewrite (stringify_run h this o Hthis). unfold Instance.render.
    now rewrite Hcb.
  - intros h h' cs this Hrun.
    unfold JS.bind in Hrun.
    destruct (new_run h) as [-> _] in Hrun.
    rewrite (chain_run cs _ _ CreateElement.constructor) in Hrun
      by apply lookup_insert_eq.
    destruct (fst (Instance.steps cs CreateElement.constructor)) as [[]|e] eqn:Hok;
      [|discriminate].
    injection Hrun as <- <-.
    destruct (steps_holds cs _ Hok eq_refl) as (Ht & Hi & Hc & Ha & Hpc & Hpe & Hcb).
    rewrite (stringify_run _ _ _ (lookup_insert_eq _ _ _)).
    unfold Instance.render, canonical_text.
    now rewrite Hcb, Ht, Hi, Hc, Ha, Hpc, Hpe.
  - vm_compute. reflexivity.
Qed.

Lemma stringify_canonical_order_witness :
  CreateElement.stringify 0 {[0 := CreateElement.Build "a" "#b" ".c" "[d]" ":e" "::f" ""]}
  = (Return "a#b.c[d]:e::f", {[0 := CreateElement.Build "a" "#b" ".c" "[d]" ":e" "::f" ""]})
  /\ CreateElement.stringify 0
       (snd ((let! s := CreateElement.new in
              chain s [Id "main"; Class "container"; Class "editable"]) ∅))
     = (Return "#main.container.editable",
        snd ((let! s := CreateElement.new in
              chain s [Id "main"; Class "container"; Class "editable"]) ∅)).
Proof.
  split.
  - apply (proj1 stringify_canonical_order
             {[0 := CreateElement.Build "a" "#b" ".c" "[d]" ":e" "::f" ""]} 0
             (CreateElement.Build "a" "#b" ".c" "[d]" ":e" "::f" ""));
      reflexivity.
  - apply (proj1 (proj2 stringify_canonical_order) ∅ _
             [Id "main"; Class "container"; Class "editable"] 0).
    reflexivity.
Defined.

(** ** Combination *)

Lemma truthy_app_r (a b : string) : truthy b = true -> truthy (a ++ b) = true.
Proof. destruct a; [now rewrite string_app_nil_l | reflexivity]. Qed.

Lemma stringify_returns (h : CreateElement.heap) (this : CreateElement.ref) (s : string) :
  fst (CreateElement.stringify this h) = Return s ->
  exists o, h !! this = Some o /\ Instance.render o = s.
Proof.
  destruct (h !! this) as [o|] eqn:Hthis.
  - rewrite (stringify_run h this o Hthis). simpl. intros [= <-]. eauto.
  - unfold CreateElement.stringify, JS.bind, CreateElement.read.
    rewrite Hthis. discriminate.
Qed.

Lemma render_combined (s : string) (o : CreateElement.instance) :
  truthy s = true -> Instance.render (CreateElement.set_combines s o) = s.
Proof. intros H. unfold Instance.render. simpl. now rewrite H. Qed.

(** What the facade's [combine] does on two selectors of the store. *)
Lemma facade_combine_run (h : CreateElement.heap) (a b : CreateElement.ref)
    (c : string) (oa ob : CreateElement.instance) :
  h !! a = Some oa -> h !! b = Some ob ->
  exists r : CreateElement.ref,
    h !! r = None
    /\ cssSelectorBuilder.combine a c b h =
       (Return r,
        <[r := CreateElement.set_combines
                 (Instance.render oa ++ " " ++ c ++ " " ++ Instance.render ob)
                 CreateElement.constructor]> h).
Proof.
  intros Hoa Hob.
  destruct (new_run h) as [Hnew Hfresh].
  match type of Hfresh with _ !! ?x = None => generalize dependent x end.
  intros r Hnew Hfresh.
  assert (Har : a <> r) by congruence.
  assert (Hbr : b <> r) by congruence.
  exists r. split; [exact Hfresh|].
  unfold cssSelectorBuilder.combine, CreateElement.combine, JS.bind.
  rewrite Hnew.
  rewrite (stringify_run _ a oa) by now rewrite lookup_insert_ne.
  rewrite (stringify_run _ b ob) by now rewrite lookup_insert_ne.
  rewrite (write_run _ r CreateElement.constructor) by apply lookup_insert_eq.
  unfold JS.ret. now rewrite insert_insert_eq.
Qed.

(** C2.  For two selectors [a] and [b] of the store, whatever they are
    (prior combinations included), and every combinator string [c],
    [combine(a, c, b)] returns a new selector, leaves every other selector
    as it was, and the new selector's [stringify()] is
    [a.stringify() + ' ' + c + ' ' + b.stringify()]; the documented nested
    combination renders with its nesting verbatim. *)
Theorem combine_joins_renderings :
  (forall (h : CreateElement.heap) (a b : CreateElement.ref) (c sa sb : string),
      fst (CreateElement.stringify a h) = Return sa ->
      fst (CreateElement.stringify b h) = Return sb ->
      exists (r : CreateElement.ref) (h' : CreateElement.heap),
        cssSelectorBuilder.combine a c b h = (Return r, h')
        /\ h !! r = None
        /\ (forall x, x <> r -> h' !! x = h !! x)
        /\ CreateElement.stringify r h' = (Return (sa ++ " " ++ c ++ " " ++ sb), h')
        /\ CreateElement.stringify a h' = (Return sa, h')
        /\ CreateElement.stringify b h' = (Return sb, h'))
  /\ fst (example_nested ∅) =
     Return "div#main.container.draggable + table#data ~ tr:nth-of-type(even)   td:nth-of-type(even)".
Proof.
  split; [|vm_compute; reflexivity].
  intros h a b c sa sb Ha Hb.
  destruct (stringify_returns _ _ _ Ha) as (oa & Hoa & <-).
  destruct (stringify_returns _ _ _ Hb) as (ob & Hob & <-).
  destruct (facade_combine_run h a b c oa ob Hoa Hob) as (r & Hfresh & Hrun).
  assert (Har : a <> r) by congruence.
  assert (Hbr : b <> r) by congruence.
  eexists r, _. split; [exact Hrun|].
  repeat split.
  - exact Hfresh.
  - intros x Hx. now rewrite lookup_insert_ne.
  - rewrite (stringify_run _ _ _ (lookup_insert_eq _ _ _)).
    rewrite render_combined; [reflexivity|].
    apply truthy_app_r. reflexivity.
  - apply stringify_run. now rewrite lookup_insert_ne.
  - apply stringify_run. now rewrite lookup_insert_ne.
Qed.

Lemma combine_joins_renderings_witness :
  exists (r : CreateElement.ref) (h' : CreateElement.heap),
    cssSelectorBuilder.combine 0 "+" 1
      {[0 := CreateElement.set_tags "a" CreateElement.constructor;
        1 := CreateElement.set_combines "b > c" CreateElement.constructor]} = (Return r, h')
    /\ ({[0 := CreateElement.set_tags "a" CreateElement.constructor;
          1 := CreateElement.set_combines "b > c" CreateElement.constructor]}
          : CreateElement.heap) !! r = None
    /\ (forall x, x <> r ->
          h' !! x =
          ({[0 := CreateElement.set_tags "a" CreateElement.constructor;
             1 := CreateElement.set_combines "b > c" CreateElement.constructor]}
             : CreateElement.heap) !! x)
    /\ CreateElement.stringify r h' = (Return "a + b > c", h')
    /\ CreateElement.stringify 0 h' = (Return "a", h')
    /\ CreateElement.stringify 1 h' = (Return "b > c", h').
Proof.
  apply (proj1 combine_joins_renderings _ 0 1 "+" "a" "b > c"); reflexivity.
Defined.

(** ** Ordering and uniqueness *)

Lemma check_later (k : kind) (o : CreateElement.instance) :
  Instance.check (selector_name k) o = negb (later_fragment_set k o).
Proof.
  destruct k; unfold Instance.check, later_fragment_set; simpl;
    rewrite ?truthy_or, ?orb_false_r, <- ?orb_assoc; reflexivity.
Qed.

Lemma step_outcome (c : call) (o : CreateElement.instance) :
  (repeats c o = true /\ Instance.step c o = Throw DuplicateError)
  \/ (repeats c o = false /\ later_fragment_set (kind_of c) o = true
      /\ Instance.step c o = Throw OrderViolation)
  \/ (repeats c o = false /\ later_fragment_set (kind_of c) o = false
      /\ exists o', Instance.step c o = Return o').
Proof.
  pose proof (check_later (kind_of c) o) as Hcheck.
  destruct (repeats c o) eqn:Hrep.
  - left. split; [reflexivity|].
    destruct c; try discriminate; unfold repeats in Hrep; simpl in Hrep |- *;
      now rewrite Hrep.
  - right.
    assert (Hstep : Instance.step c o =
                    if later_fragment_set (kind_of c) o
                    then Throw OrderViolation
                    else Instance.step c o).
    { destruct c; unfold repeats in Hrep; simpl in Hrep, Hcheck |- *;
        rewrite ?Hrep, ?Hcheck, ?negb_involutive;
        try destruct (later_fragment_set _ o); reflexivity. }
    destruct (later_fragment_set (kind_of c) o) eqn:Hl; [left | right];
      repeat split; trivial.
    destruct c; unfold repeats in Hrep; simpl in Hrep, Hcheck |- *;
      rewrite ?Hrep, ?Hcheck, ?Hl; simpl; eauto.
Qed.

(** C3.  A fragment-method call on an instance throws the ordering error
    exactly when it is not the duplicate case of its own slot and some
    fragment of a kind strictly after its kind in the canonical order is
    non-empty on the instance; in the duplicate case the error is the
    duplicate one; and when no later fragment is set (whatever earlier
    kinds were skipped) the call, outside the duplicate case, succeeds. *)
Theorem order_violation_iff_later_fragment :
  forall (h : CreateElement.heap) (this : CreateElement.ref)
         (o : CreateElement.instance) (c : call),
    h !! this = Some o ->
    (fst (invoke this c h) = Throw OrderViolation
     <-> repeats c o = false /\ later_fragment_set (kind_of c) o = true)
    /\ (repeats c o = true -> fst (invoke this c h) = Throw DuplicateError)
    /\ (repeats c o = false -> later_fragment_set (kind_of c) o = false ->
        fst (invoke this c h) = Return this).
Proof.
  intros h this o c Hthis. rewrite (invoke_run h this o Hthis).
  destruct (step_outcome c o)
    as [[Hr ->] | [(Hr & Hl & ->) | (Hr & Hl & o' & ->)]]; simpl;
    rewrite Hr, Hl || rewrite Hr;
    repeat split; try tauto; try discriminate; try (intros []; discriminate).
Qed.

Lemma order_violation_iff_later_fragment_witness :
  fst (invoke 0 (Class "y")
         {[0 := CreateElement.set_attrs "[x]" CreateElement.constructor]}) = Throw OrderViolation
  /\ fst (invoke 0 (Attr "y")
            {[0 := CreateElement.set_tags "a" CreateElement.constructor]}) = Return 0.
Proof.
  split.
  - apply (order_violation_iff_later_fragment _ 0
             (CreateElement.set_attrs "[x]" CreateElement.constructor) (Class "y"));
      [reflexivity | split; reflexivity].
  - apply (order_violation_iff_later_fragment _ 0
             (CreateElement.set_tags "a" CreateElement.constructor) (Attr "y"));
      reflexivity.
Defined.

(** No call empties a fragment field. *)
Lemma step_keeps_set (c : call) (k : kind) (o o' : CreateElement.instance) :
  Instance.step c o = Return o' ->
  truthy (fragment k o) = true -> truthy (fragment k o') = true.
Proof.
  intros Hstep Hset.
  destruct c; simpl in Hstep;
    repeat match type of Hstep with
           | (if ?b then _ else _) = _ => destruct b eqn:?; try discriminate
           end;
    injection Hstep as <-; destruct k; simpl in *;
    try assumption; try congruence;
    try (apply truthy_app_l; assumption); reflexivity.
Qed.

Lemma step_fills (c : call) (o o' : CreateElement.instance) :
  Instance.step c o = Return o' ->
  fills_slot c = true -> truthy (fragment (kind_of c) o') = true.
Proof.
  intros Hstep Hfill.
  destruct c; try discriminate; simpl in Hstep;
    repeat match type of Hstep with
           | (if ?b then _ else _) = _ => destruct b eqn:?; try discriminate
           end;
    injection Hstep as <-; simpl in *; trivial.
Qed.

Lemma steps_keep_set (cs : list call) (k : kind) :
  forall o, fst (Instance.steps cs o) = Return tt ->
            truthy (fragment k o) = true ->
            truthy (fragment k (snd (Instance.steps cs o))) = true.
Proof.
  induction cs as [|c cs IH]; intros o Hok Hset; simpl in *; [assumption|].
  destruct (Instance.step c o) as [o'|e] eqn:Hstep; [|discriminate].
  apply IH; [assumption|]. eapply step_keeps_set; eassumption.
Qed.

Lemma steps_fill (cs : list call) (c : call) :
  forall o, In c cs -> fills_slot c = true ->
            fst (Instance.steps cs o) = Return tt ->
            truthy (fragment (kind_of c) (snd (Instance.steps cs o))) = true.
Proof.
  induction cs as [|c0 cs IH]; intros o Hin Hfill Hok; [destruct Hin|].
  simpl in Hok |- *.
  destruct (Instance.step c0 o) as [o'|e] eqn:Hstep; [|discriminate].
  destruct Hin as [-> | Hin].
  - apply steps_keep_set; [assumption|]. eapply step_fills; eassumption.
  - now apply IH.
Qed.

Lemma invoke_none (h : CreateElement.heap) (this : CreateElement.ref) (c : call) :
  h !! this = None -> invoke this c h = (Throw (TypeError "not an instance"), h).
Proof.
  intros Hnone.
  destruct c; simpl;
    unfold CreateElement.element, CreateElement.id, CreateElement.class,
      CreateElement.attr, CreateElement.pseudoClass, CreateElement.pseudoElement,
      CreateElement.checkFollowing, JS.bind, CreateElement.read;
    simpl; now rewrite Hnone.
Qed.

Lemma chain_returns (cs : list call) (h h' : CreateElement.heap) (this r : CreateElement.ref) :
  chain this cs h = (Return r, h') -> cs <> [] ->
  exists o, h !! this = Some o
            /\ fst (Instance.steps cs o) = Return tt
            /\ r = this /\ h' = <[this := snd (Instance.steps cs o)]> h.
Proof.
  intros Hrun Hcs.
  destruct (h !! this) as [o|] eqn:Hthis.
  - exists o. rewrite (chain_run cs h this o Hthis) in Hrun.
    destruct (fst (Instance.steps cs o)) as [[]|e]; [|discriminate].
    injection Hrun as <- <-. auto.
  - destruct cs as [|c cs]; [contradiction|].
    simpl in Hrun. unfold JS.bind in Hrun.
    rewrite (invoke_none h this c Hthis) in Hrun. discriminate.
Qed.

Lemma steps_map_class (vs : list string) :
  forall o, later_fragment_set KClass o = false ->
    Instance.steps (map Class vs) o =
    (Return tt, CreateElement.set_classes
                  (CreateElement.classes o ++ join (map (String.append ".") vs)) o).
Proof.
  induction vs as [|v vs IH]; intros o Hl; simpl.
  - rewrite string_app_nil_r. now destruct o.
  - change "class" with (selector_name KClass).
    rewrite check_later, Hl. simpl.
    rewrite IH by exact Hl. simpl.
    now rewrite !string_app_assoc.
Qed.

Lemma steps_map_pseudoClass (vs : list string) :
  forall o, later_fragment_set KPseudoClass o = false ->
    Instance.steps (map PseudoClass vs) o =
    (Return tt, CreateElement.set_pseudoClasses
                  (CreateElement.pseudoClasses o ++ join (map (String.append ":") vs)) o).
Proof.
  induction vs as [|v vs IH]; intros o Hl; simpl.
  - rewrite string_app_nil_r. now destruct o.
  - change "pseudoClass" with (selector_name KPseudoClass).
    rewrite check_later, Hl. simpl.
    rewrite IH by exact Hl. simpl.
    now rewrite !string_app_assoc.
Qed.

Lemma later_class_empty (o : CreateElement.instance) :
  later_fragment_set KClass o = false ->
  CreateElement.attrs o = "" /\ CreateElement.pseudoClasses o = ""
  /\ CreateElement.pseudoElements o = "".
Proof.
  unfold later_fragment_set. simpl. rewrite orb_false_r, !orb_false_iff, !truthy_false.
  tauto.
Qed.

Lemma later_pseudoClass_empty (o : CreateElement.instance) :
  later_fragment_set KPseudoClass o = false -> CreateElement.pseudoElements o = "".
Proof.
  unfold later_fragment_set. simpl. rewrite orb_false_r, truthy_false. tauto.
Qed.

(** C4.  A call of [element], [id] or [pseudoElement] on an instance whose
    fragment of that kind is already set throws the duplicate error and
    changes nothing; in particular, once a call of a chain has set such a
    fragment, a further call of that kind on the returned instance throws
    it.  [class] and [pseudoClass] never throw the duplicate error: where
    one call of them is in order, any number succeed, and their fragments
    accumulate in call order: the [classes] (resp. [pseudoClasses]) field
    read after the calls is the former one followed by each new fragment,
    and so is the rendering. *)
Theorem once_only_and_repeatable :
  (forall (h : CreateElement.heap) (this : CreateElement.ref)
          (o : CreateElement.instance) (c : call),
      h !! this = Some o -> repeats c o = true ->
      invoke this c h = (Throw DuplicateError, h))
  /\ (forall (h h' : CreateElement.heap) (this r : CreateElement.ref)
             (cs : list call) (c c' : call),
        chain this cs h = (Return r, h') ->
        In c cs -> fills_slot c = true -> kind_of c' = kind_of c ->
        invoke r c' h' = (Throw DuplicateError, h'))
  /\ (forall (h : CreateElement.heap) (this : CreateElement.ref)
             (o : CreateElement.instance) (vs : list string),
        h !! this = Some o ->
        (later_fragment_set KClass o = false ->
         chain this (map Class vs) h =
         (Return this,
          <[this := CreateElement.set_classes
                      (CreateElement.classes o ++ join (map (String.append ".") vs)) o]> h)
         /\ fst ((let! r := chain this (map Class vs) in
                  CreateElement.read r CreateElement.classes) h)
            = Return (CreateElement.classes o ++ join (map (String.append ".") vs))
         /\ (truthy (CreateElement.combines o) = false ->
             fst ((let! r := chain this (map Class vs) in CreateElement.stringify r) h)
             = Return (CreateElement.tags o ++ CreateElement.ids o ++ CreateElement.classes o
                       ++ join (map (String.append ".") vs))))
        /\ (later_fragment_set KPseudoClass o = false ->
            chain this (map PseudoClass vs) h =
            (Return this,
             <[this := CreateElement.set_pseudoClasses
                         (CreateElement.pseudoClasses o ++ join (map (String.append ":") vs)) o]> h)
            /\ fst ((let! r := chain this (map PseudoClass vs) in
                     CreateElement.read r CreateElement.pseudoClasses) h)
               = Return (CreateElement.pseudoClasses o ++ join (map (String.append ":") vs))
            /\ (truthy (CreateElement.combines o) = false ->
                fst ((let! r := chain this (map PseudoClass vs) in CreateElement.stringify r) h)
                = Return (CreateElement.tags o ++ CreateElement.ids o ++ CreateElement.classes o
                          ++ CreateElement.attrs o ++ CreateElement.pseudoClasses o
                          ++ join (map (String.append ":") vs)))))
  /\ (forall (h : CreateElement.heap) (this : CreateElement.ref) (v : string),
        fst (CreateElement.class this v h) <> Throw DuplicateError
        /\ fst (CreateElement.pseudoClass this v h) <> Throw DuplicateError).
Proof.
  assert (Hdup : forall h this o c,
             h !! this = Some o -> repeats c o = true ->
             invoke this c h = (Throw DuplicateError, h)).
  { intros h this o c Hthis Hrep. rewrite (invoke_run h this o Hthis).
    destruct (step_outcome c o) as [[_ ->] | [(Hr & _) | (Hr & _)]];
      [reflexivity | congruence | congruence]. }
  split; [exact Hdup | split; [| split]].
  - intros h h' this r cs c c' Hrun Hin Hfill Hkind.
    destruct (chain_returns cs h h' this r Hrun) as (o & Hthis & Hok & -> & ->).
    { intros ->. destruct Hin. }
    apply (Hdup _ _ _ _ (lookup_insert_eq _ _ _)).
    pose proof (steps_fill cs c o Hin Hfill Hok) as Hset.
    rewrite <- Hkind in Hset.
    destruct c, c'; try discriminate; exact Hset.
  - intros h this o vs Hthis. split; intros Hl.
    + assert (Hrun : chain this (map Class vs) h =
                     (Return this,
                      <[this := CreateElement.set_classes
                                  (CreateElement.classes o ++ join (map (String.append ".") vs)) o]> h)).
      { rewrite (chain_run _ h this o Hthis). now rewrite steps_map_class. }
      split; [exact Hrun|]. unfold JS.bind. rewrite Hrun. split.
      * now rewrite (read_run _ _ _ (lookup_insert_eq _ _ _)).
      * intros Hcb. rewrite (stringify_run _ _ _ (lookup_insert_eq _ _ _)).
        destruct (later_class_empty o Hl) as (Ha & Hpc & Hpe).
        unfold Instance.render. simpl. rewrite Hcb, Ha, Hpc, Hpe.
        now rewrite !string_app_nil_r.
    + assert (Hrun : chain this (map PseudoClass vs) h =
                     (Return this,
                      <[this := CreateElement.set_pseudoClasses
                                  (CreateElement.pseudoClasses o ++ join (map (String.append ":") vs)) o]> h)).
      { rewrite (chain_run _ h this o Hthis). now rewrite steps_map_pseudoClass. }
      split; [exact Hrun|]. unfold JS.bind. rewrite Hrun. split.
      * now rewrite (read_run _ _ _ (lookup_insert_eq _ _ _)).
      * intros Hcb. rewrite (stringify_run _ _ _ (lookup_insert_eq _ _ _)).
        pose proof (later_pseudoClass_empty o Hl) as Hpe.
        unfold Instance.render. simpl. rewrite Hcb, Hpe.
        now rewrite !string_app_nil_r.
  - intros h this v.
    destruct (h !! this) as [o|] eqn:Hthis.
    + pose proof (invoke_run h this o Hthis (Class v)) as Hc.
      pose proof (invoke_run h this o Hthis (PseudoClass v)) as Hp.
      simpl in Hc, Hp. rewrite Hc, Hp.
      split; repeat match goal with
                    | |- context [if ?b then _ else _] => destruct b
                    end; discriminate.
    + pose proof (invoke_none h this (Class v) Hthis) as Hc.
      pose proof (invoke_none h this (PseudoClass v) Hthis) as Hp.
      simpl in Hc, Hp. rewrite Hc, Hp. split; discriminate.
Qed.

Lemma once_only_and_repeatable_witness :
  invoke 0 (Element "span") {[0 := CreateElement.set_tags "div" CreateElement.constructor]}
  = (Throw DuplicateError, {[0 := CreateElement.set_tags "div" CreateElement.constructor]})
  /\ invoke 0 (Id "other")
       (snd (chain 0 [Id "main"; Class "container"] {[0 := CreateElement.constructor]}))
     = (Throw DuplicateError,
        snd (chain 0 [Id "main"; Class "container"] {[0 := CreateElement.constructor]}))
  /\ fst ((let! r := chain 0 (map Class ["container"; "editable"]) in
           CreateElement.read r CreateElement.classes)
            {[0 := CreateElement.set_ids "#main" CreateElement.constructor]})
     = Return ".container.editable"
  /\ fst ((let! r := chain 0 (map Class ["container"; "editable"]) in CreateElement.stringify r)
            {[0 := CreateElement.set_ids "#main" CreateElement.constructor]})
     = Return "#main.container.editable"
  /\ fst ((let! r := chain 0 (map PseudoClass ["hover"; "focus"]) in CreateElement.stringify r)
            {[0 := CreateElement.set_tags "a" CreateElement.constructor]})
     = Return "a:hover:focus".
Proof.
  split; [|split; [|split; [|split]]].
  - apply (proj1 once_only_and_repeatable _ 0
             (CreateElement.set_tags "div" CreateElement.constructor));
      reflexivity.
  - apply (proj1 (proj2 once_only_and_repeatable)
             {[0 := CreateElement.constructor]} _ 0 0
             [Id "main"; Class "container"] (Id "main") (Id "other"));
      [reflexivity | left; reflexivity | reflexivity | reflexivity].
  - refine (proj1 (proj2 (proj1 (proj1 (proj2 (proj2 once_only_and_repeatable))
                     {[0 := CreateElement.set_ids "#main" CreateElement.constructor]} 0
                     (CreateElement.set_ids "#main" CreateElement.constructor)
                     ["container"; "editable"] _) _)));
      reflexivity.
  - refine (proj2 (proj2 (proj1 (proj1 (proj2 (proj2 once_only_and_repeatable))
                     {[0 := CreateElement.set_ids "#main" CreateElement.constructor]} 0
                     (CreateElement.set_ids "#main" CreateElement.constructor)
                     ["container"; "editable"] _) _)) _);
      reflexivity.
  - refine (proj2 (proj2 (proj2 (proj1 (proj2 (proj2 once_only_and_repeatable))
                     {[0 := CreateElement.set_tags "a" CreateElement.constructor]} 0
                     (CreateElement.set_tags "a" CreateElement.constructor)
                     ["hover"; "focus"] _) _)) _);
      reflexivity.
Defined.

(** C5.  A fragment-method call that throws leaves the store, hence every
    field of the instance, exactly as it was, and the error ends the chain
    the call is part of: it reaches the caller. *)
Theorem failed_call_changes_nothing :
  forall (h h' : CreateElement.heap) (this : CreateElement.ref) (c : call) (e : exn),
    invoke this c h = (Throw e, h') ->
    h' = h /\ forall cs, chain this (c :: cs) h = (Throw e, h).
Proof.
  intros h h' this c e Hrun.
  assert (Hsame : h' = h).
  { destruct (h !! this) as [o|] eqn:Hthis.
    - rewrite (invoke_run h this o Hthis) in Hrun.
      destruct (Instance.step c o); congruence.
    - rewrite (invoke_none h this c Hthis) in Hrun. congruence. }
  subst h'. split; [reflexivity|].
  intros cs. simpl. unfold JS.bind. now rewrite Hrun.
Qed.

Lemma failed_call_changes_nothing_witness :
  snd (invoke 0 (Class "late")
         {[0 := CreateElement.set_attrs "[href]" (CreateElement.set_tags "a" CreateElement.constructor)]})
  = {[0 := CreateElement.set_attrs "[href]" (CreateElement.set_tags "a" CreateElement.constructor)]}.
Proof.
  apply (failed_call_changes_nothing
           {[0 := CreateElement.set_attrs "[href]" (CreateElement.set_tags "a" CreateElement.constructor)]}
           _ 0 (Class "late") OrderViolation).
  reflexivity.
Defined.

(** ** The attribute slot *)

(** C6.  On an instance with no pseudo-class and no pseudo-element
    fragment, [s.attr(x).attr(y)] throws nothing and leaves the store
    exactly as [s.attr(y)] does: the attribute slot holds [[y]] alone, so
    the two render the same, and, when no combined expression is set, as
    [tags + ids + classes + '[' + y + ']']. *)
Theorem attr_overwrites :
  forall (h : CreateElement.heap) (this : CreateElement.ref)
         (o : CreateElement.instance) (x y : string),
    h !! this = Some o ->
    truthy (CreateElement.pseudoClasses o) = false ->
    truthy (CreateElement.pseudoElements o) = false ->
    (let! s := CreateElement.attr this x in CreateElement.attr s y) h
    = (Return this, <[this := CreateElement.set_attrs ("[" ++ y ++ "]") o]> h)
    /\ (let! s := CreateElement.attr this x in CreateElement.attr s y) h
       = CreateElement.attr this y h
    /\ (let! s := CreateElement.attr this x in
        let! s := CreateElement.attr s y in CreateElement.stringify s) h
       = (let! s := CreateElement.attr this y in CreateElement.stringify s) h
    /\ (truthy (CreateElement.combines o) = false ->
        fst ((let! s := CreateElement.attr this x in
              let! s := CreateElement.attr s y in CreateElement.stringify s) h)
        = Return (CreateElement.tags o ++ CreateElement.ids o ++ CreateElement.classes o
                  ++ "[" ++ y ++ "]")).
Proof.
  intros h this o x y Hthis Hpc Hpe.
  assert (Hattr : forall h0 o0 v,
             h0 !! this = Some o0 ->
             truthy (CreateElement.pseudoClasses o0) = false ->
             truthy (CreateElement.pseudoElements o0) = false ->
             CreateElement.attr this v h0
             = (Return this, <[this := CreateElement.set_attrs ("[" ++ v ++ "]") o0]> h0)).
  { intros h0 o0 v H0 Hpc0 Hpe0.
    pose proof (invoke_run h0 this o0 H0 (Attr v)) as Hrun. simpl in Hrun.
    rewrite Hrun. unfold Instance.check. simpl.
    now rewrite truthy_or, Hpc0, Hpe0. }
  assert (Htwice : (let! s := CreateElement.attr this x in CreateElement.attr s y) h
                   = (Return this, <[this := CreateElement.set_attrs ("[" ++ y ++ "]") o]> h)).
  { unfold JS.bind. rewrite (Hattr h o x Hthis Hpc Hpe).
    rewrite (Hattr _ (CreateElement.set_attrs ("[" ++ x ++ "]") o) y
               (lookup_insert_eq _ _ _) Hpc Hpe).
    now rewrite insert_insert_eq. }
  assert (Hrender : (let! s := CreateElement.attr this x in
                     let! s := CreateElement.attr s y in CreateElement.stringify s) h
                    = (let! s := CreateElement.attr this y in CreateElement.stringify s) h).
  { unfold JS.bind in Htwice |- *.
    destruct (CreateElement.attr this x h) as [[s|e] h1]; [|discriminate].
    now rewrite Htwice, (Hattr h o y Hthis Hpc Hpe). }
  repeat split.
  - exact Htwice.
  - now rewrite Htwice, (Hattr h o y Hthis Hpc Hpe).
  - exact Hrender.
  - intros Hcb. rewrite Hrender. unfold JS.bind.
    rewrite (Hattr h o y Hthis Hpc Hpe).
    rewrite (stringify_run _ _ _ (lookup_insert_eq _ _ _)).
    unfold Instance.render. simpl. rewrite Hcb.
    apply truthy_false in Hpc, Hpe. rewrite Hpc, Hpe.
    now rewrite !string_app_nil_r.
Qed.

Lemma attr_overwrites_witness :
  fst ((let! s := CreateElement.attr 0 "href" in
        let! s := CreateElement.attr s "title" in CreateElement.stringify s)
         {[0 := CreateElement.set_classes ".c" (CreateElement.set_tags "a" CreateElement.constructor)]})
  = Return "a.c[title]".
Proof.
  refine (proj2 (proj2 (proj2 (attr_overwrites _ 0
            (CreateElement.set_classes ".c" (CreateElement.set_tags "a" CreateElement.constructor))
            "href" "title" _ _ _))) _); reflexivity.
Defined.

(** ** The empty element name *)

(** C8.  [element('')] on a fresh selector succeeds and leaves the instance
    as the constructor made it, its tag slot still empty; a following
    [element(x)] is therefore not a duplicate: it succeeds, sets the tag to
    [x], and the selector renders as [x], with no trace of the first
    call. *)
Theorem empty_element_name_is_not_a_duplicate :
  forall (h : CreateElement.heap) (x : string),
    exists (this : CreateElement.ref) (h1 h2 : CreateElement.heap),
      cssSelectorBuilder.element "" h = (Return this, h1)
      /\ h1 !! this = Some CreateElement.constructor
      /\ CreateElement.element this x h1 = (Return this, h2)
      /\ h2 !! this = Some (CreateElement.set_tags x CreateElement.constructor)
      /\ CreateElement.stringify this h2 = (Return x, h2).
Proof.
  intros h x.
  destruct (new_run h) as [Hnew _].
  match type of Hnew with _ = (Return ?r, _) => remember r as this eqn:Ethis end.
  clear Ethis.
  remember (<[this := CreateElement.constructor]> h) as h1 eqn:Eh1.
  assert (H1 : h1 !! this = Some CreateElement.constructor)
    by (rewrite Eh1; apply lookup_insert_eq).
  exists this, h1, (<[this := CreateElement.set_tags x CreateElement.constructor]> h1).
  repeat split.
  - unfold cssSelectorBuilder.element, JS.bind. rewrite Hnew.
    pose proof (invoke_run h1 this _ H1 (Element "")) as Hrun. simpl in Hrun.
    rewrite Hrun. f_equal. now apply insert_id.
  - exact H1.
  - pose proof (invoke_run h1 this _ H1 (Element x)) as Hrun. exact Hrun.
  - apply lookup_insert_eq.
  - rewrite (stringify_run _ _ _ (lookup_insert_eq _ _ _)).
    unfold Instance.render. simpl. now rewrite !string_app_nil_r.
Qed.

(** ** Fragment calls on a combined selector *)

Lemma step_ignores_combines (c : call) (s : string) (o : CreateElement.instance) :
  Instance.step c (CreateElement.set_combines s o) =
  match Instance.step c o with
  | Return o' => Return (CreateElement.set_combines s o')
  | Throw e => Throw e
  end.
Proof.
  destruct c; unfold Instance.step, Instance.check; simpl;
    repeat match goal with
           | |- context [if ?b then _ else _] => destruct b
           end; reflexivity.
Qed.

Lemma step_assigns (c : call) (o o' : CreateElement.instance) :
  Instance.step c o = Return o' ->
  fragment (kind_of c) o' = assigned c o
  /\ CreateElement.combines o' = CreateElement.combines o.
Proof.
  intros Hstep.
  destruct c; simpl in Hstep;
    repeat match type of Hstep with
           | (if ?b then _ else _) = _ => destruct b; try discriminate
           end;
    injection Hstep as <-; split; reflexivity.
Qed.

Lemma steps_keep_combines (cs : list call) :
  forall o, CreateElement.combines (snd (Instance.steps cs o)) = CreateElement.combines o.
Proof.
  induction cs as [|c cs IH]; intros o; simpl; [reflexivity|].
  destruct (Instance.step c o) as [o'|e] eqn:Hstep; [|reflexivity].
  rewrite IH. now apply step_assigns in Hstep.
Qed.

(** C10, as the code has it.  On an instance whose [combines] is set, a
    fragment call throws exactly what it would throw were [combines]
    empty: the checks look at the fragment fields only, and still apply.  A
    call that succeeds assigns its fragment field as usual and leaves
    [combines] alone, and after any chain of calls, thrown or not,
    [stringify()] returns the combined string verbatim.  On the selector
    [combine] has just returned, any one fragment call succeeds. *)
Theorem combined_rendering_is_fixed :
  (forall (h : CreateElement.heap) (this : CreateElement.ref) (o : CreateElement.instance),
      h !! this = Some o ->
      truthy (CreateElement.combines o) = true ->
      (forall c, fst (invoke this c h)
                 = fst (invoke this c (<[this := CreateElement.set_combines "" o]> h)))
      /\ (forall c h', invoke this c h = (Return this, h') ->
            exists o', h' !! this = Some o'
                       /\ fragment (kind_of c) o' = assigned c o
                       /\ CreateElement.combines o' = CreateElement.combines o)
      /\ (forall cs, CreateElement.stringify this (snd (chain this cs h))
                     = (Return (CreateElement.combines o), snd (chain this cs h))))
  /\ (forall (h : CreateElement.heap) (a b : CreateElement.ref) (k sa sb : string) (c : call),
        fst (CreateElement.stringify a h) = Return sa ->
        fst (CreateElement.stringify b h) = Return sb ->
        exists (t : CreateElement.ref) (h1 h2 : CreateElement.heap),
          cssSelectorBuilder.combine a k b h = (Return t, h1)
          /\ invoke t c h1 = (Return t, h2)
          /\ CreateElement.stringify t h2 = (Return (sa ++ " " ++ k ++ " " ++ sb), h2)).
Proof.
  split.
  - intros h this o Hthis Hcb. repeat split.
    + intros c.
      rewrite (invoke_run h this o Hthis).
      rewrite (invoke_run _ this _ (lookup_insert_eq h this _)).
      rewrite step_ignores_combines.
      destruct (Instance.step c o); reflexivity.
    + intros c h' Hrun.
      rewrite (invoke_run h this o Hthis) in Hrun.
      destruct (Instance.step c o) as [o'|e] eqn:Hstep; [|discriminate].
      injection Hrun as <-. exists o'.
      split; [apply lookup_insert_eq | now apply step_assigns].
    + intros cs. rewrite (chain_run cs h this o Hthis). simpl.
      rewrite (stringify_run _ _ _ (lookup_insert_eq _ _ _)).
      unfold Instance.render. now rewrite steps_keep_combines, Hcb.
  - intros h a b k sa sb c Ha Hb.
    destruct (stringify_returns _ _ _ Ha) as (oa & Hoa & <-).
    destruct (stringify_returns _ _ _ Hb) as (ob & Hob & <-).
    destruct (facade_combine_run h a b k oa ob Hoa Hob) as (t & Hfresh & Hrun).
    set (s := Instance.render oa ++ " " ++ k ++ " " ++ Instance.render ob) in *.
    set (ot := CreateElement.set_combines s CreateElement.constructor) in *.
    destruct (Instance.step c ot) as [o'|e] eqn:Hstep.
    + exists t, (<[t := ot]> h), (<[t := o']> (<[t := ot]> h)).
      split; [exact Hrun|]. split.
      * rewrite (invoke_run _ t ot (lookup_insert_eq _ _ _)). now rewrite Hstep.
      * rewrite (stringify_run _ _ _ (lookup_insert_eq _ _ _)).
        unfold Instance.render.
        destruct (step_assigns c ot o' Hstep) as [_ ->]. simpl.
        assert (Hs : truthy s = true) by (apply truthy_app_r; reflexivity).
        now rewrite Hs.
    + exfalso. unfold ot in Hstep. rewrite step_ignores_combines in Hstep.
      destruct c; simpl in Hstep; discriminate.
Qed.

Lemma combined_rendering_is_fixed_witness :
  CreateElement.stringify 0
    (snd (chain 0 [Class "x"; PseudoClass "y"; Class "z"]
            {[0 := CreateElement.set_combines "a + b" CreateElement.constructor]}))
  = (Return "a + b",
     snd (chain 0 [Class "x"; PseudoClass "y"; Class "z"]
            {[0 := CreateElement.set_combines "a + b" CreateElement.constructor]})).
Proof.
  refine (proj2 (proj2 (proj1 combined_rendering_is_fixed
            {[0 := CreateElement.set_combines "a + b" CreateElement.constructor]} 0
            (CreateElement.set_combines "a + b" CreateElement.constructor) _ _))
            [Class "x"; PseudoClass "y"; Class "z"]);
    reflexivity.
Defined.

(** C10 as stated fails:
    [combine(element('a'), '+', element('b')).pseudoClass('hover')] is a
    selector whose combined expression is set, and invoking [class] on it
    throws the ordering error. *)
Lemma class_on_combined_selector_throws :
  fst (example_combined_pseudoClass ∅) = Return 2
  /\ snd (example_combined_pseudoClass ∅) !! 2
     = Some (CreateElement.Build "" "" "" "" ":hover" "" "a + b")
  /\ truthy (CreateElement.combines (CreateElement.Build "" "" "" "" ":hover" "" "a + b")) = true
  /\ fst (CreateElement.class 2 "c" (snd (example_combined_pseudoClass ∅))) = Throw OrderViolation.
Proof. repeat split; vm_compute; reflexivity. Qed.

(** ** [Rectangle] *)

Lemma getArea_assign (r : Rect.object) (a : Rect.assignment) :
  Rect.getArea (Rect.assign r a) = Rect.getArea r.
Proof. destruct a; reflexivity. Qed.

(** C9.  [Rectangle(w, h)] has [width] [w], [height] [h], and a [getArea]
    that returns [w * h]; the product is taken from the constructor
    arguments, so it is still [w * h] after any sequence of assignments to
    the object's [width] and [height]. *)
Theorem getArea_uses_constructor_arguments :
  forall (w h : float),
    Rect.width (Rect.Rectangle w h) = w
    /\ Rect.height (Rect.Rectangle w h) = h
    /\ Rect.getArea (Rect.Rectangle w h) tt = PrimFloat.mul w h
    /\ forall (l : list Rect.assignment),
         Rect.getArea (fold_left Rect.assign l (Rect.Rectangle w h)) tt = PrimFloat.mul w h.
Proof.
  intros w h. repeat split.
  intros l.
  assert (Hfold : forall r, Rect.getArea (fold_left Rect.assign l r) = Rect.getArea r).
  { induction l as [|a l IH]; intros r; simpl; [reflexivity|].
    now rewrite IH, getArea_assign. }
  now rewrite Hfold.
Qed.

Example Rectangle_10_20 :
  Rect.getArea (Rect.assign (Rect.Rectangle 10 20) (Rect.SetWidth 3)) tt = 200%float
  /\ Rect.width (Rect.assign (Rect.Rectangle 10 20) (Rect.SetWidth 3)) = 3%float.
Proof. split; reflexivity. Qed.

(** ** The JSON helpers *)

Section FromJSON.

Context {N : Type}.

Lemma assoc_not_elem (key : string) (ps : list (string * value N)) :
  key ∉ ps.*1 -> assoc key ps = None.
Proof.
  induction ps as [|[k x] ps IH]; intros Hnot; simpl; [reflexivity|].
  rewrite fmap_cons, not_elem_of_cons in Hnot. destruct Hnot as [Hne Hnot].
  destruct (String.eqb_spec k key) as [->|_]; [contradiction | now apply IH].
Qed.

Lemma assoc_app_r (key : string) (ps1 ps2 : list (string * value N)) :
  key ∉ ps1.*1 -> assoc key (ps1 ++ ps2) = assoc key ps2.
Proof.
  induction ps1 as [|[k x] ps1 IH]; intros Hnot; simpl; [reflexivity|].
  rewrite fmap_cons, not_elem_of_cons in Hnot. destruct Hnot as [Hne Hnot].
  destruct (String.eqb_spec k key) as [->|_]; [contradiction | now apply IH].
Qed.

Lemma define_not_elem (key : string) (x : value N) (ps : list (string * value N)) :
  key ∉ ps.*1 -> define key x ps = (ps ++ [(key, x)])%list.
Proof.
  induction ps as [|[k y] ps IH]; intros Hnot; simpl; [reflexivity|].
  rewrite fmap_cons, not_elem_of_cons in Hnot. destruct Hnot as [Hne Hnot].
  destruct (String.eqb_spec k key) as [->|_]; [contradiction|].
  now rewrite IH.
Qed.

(** The loop of [fromJSON] copies the properties one by one when none is
    intercepted by the prototype. *)
Lemma forEach_copies (proto : Prototype N) (obj : value N)
    (ps2 : list (string * value N)) :
  forall ps1 : list (string * value N),
    own_enumerable obj = Some (ps1 ++ ps2)%list ->
    NoDup ((ps1 ++ ps2)%list).*1 ->
    (forall key, key ∈ ps2.*1 -> assignable proto key) ->
    forEach ps2.*1 (copy_property obj) {| prototype := Given proto; own := ps1 |}
    = Return {| prototype := Given proto; own := (ps1 ++ ps2)%list |}.
Proof.
  induction ps2 as [|[k x] ps2 IH]; intros ps1 Hown Hnodup Hfree.
  - simpl. now rewrite app_nil_r.
  - assert (Hk : k ∉ ps1.*1).
    { rewrite fmap_app, NoDup_app in Hnodup.
      destruct Hnodup as (_ & Hdisj & _). intros Hin.
      apply (Hdisj k Hin). rewrite fmap_cons. apply elem_of_cons. now left. }
    assert (Hfreek : assignable proto k).
    { apply Hfree. rewrite fmap_cons. apply elem_of_cons. now left. }
    assert (Hstep : copy_property obj k {| prototype := Given proto; own := ps1 |}
                    = Return {| prototype := Given proto; own := (ps1 ++ [(k, x)])%list |}).
    { unfold copy_property, get. rewrite Hown, (assoc_app_r k ps1 _ Hk). simpl.
      rewrite String.eqb_refl.
      unfold put. simpl. rewrite (assoc_not_elem k ps1 Hk).
      rewrite (define_not_elem k x ps1 Hk).
      now destruct Hfreek as [-> | ->]. }
    rewrite fmap_cons. simpl. rewrite Hstep.
    replace (ps1 ++ (k, x) :: ps2)%list with ((ps1 ++ [(k, x)]) ++ ps2)%list in *
      by now rewrite <- app_assoc.
    apply IH; trivial.
    intros key Hkey. apply Hfree. rewrite fmap_cons. apply elem_of_cons. now right.
Qed.

End FromJSON.

Lemma index_inj : Inj (=) (=) index.
Proof.
  intros i j Heq. unfold index in Heq.
  apply (f_equal NilEmpty.uint_of_string) in Heq.
  rewrite !NilEmpty.usu in Heq.
  injection Heq as Heq. now apply DecimalNat.Unsigned.to_uint_inj.
Qed.

Lemma imap_by_index {A B : Type} (g : nat -> B) (l : list A) :
  imap (fun i _ => g i) l = g <$> seq 0 (length l).
Proof.
  revert g. induction l as [|x l IH]; intros g; [reflexivity|].
  simpl. f_equal.
  change ((fun i (_ : A) => g i) ∘ S) with (fun i (_ : A) => (g ∘ S) i).
  rewrite IH, <- fmap_S_seq. now rewrite <- list_fmap_compose.
Qed.

Lemma indexed_keys {N : Type} (l : list (value N)) :
  (indexed l).*1 = index <$> seq 0 (length l).
Proof.
  unfold indexed. rewrite fmap_imap.
  change (fun n : nat => fst ∘ (fun x : value N => (index n, x)))
    with (fun (n : nat) (_ : value N) => index n).
  apply imap_by_index.
Qed.

Lemma own_enumerable_NoDup {N : Type} (v : value N) (ps : list (string * value N)) :
  own_enumerable v = Some ps -> unique_keys v -> NoDup ps.*1.
Proof.
  pose proof index_inj.
  destruct v; simpl; intros [= <-] Hu;
    rewrite ?indexed_keys;
    first [ apply NoDup_nil_2 | apply NoDup_fmap_2, NoDup_seq | exact Hu ]; exact _.
Qed.

(** C7, as the code has it.  Let [v] be a value that the host's JSON text
    round-trips.  If [v] is [null], [fromJSON(proto, getJSON(v))] throws a
    [TypeError].  Otherwise, when [v] has each property name once and the
    chain of [proto] intercepts none of them (no setter, no read-only
    property of that name), the call returns an object whose prototype is
    [proto] and whose own enumerable properties are those of [v]: the
    properties of an object, the indices of an array or of a string, none
    for a boolean or a number. *)
Theorem fromJSON_of_getJSON :
  forall (N : Type) (JSON_stringify : value N -> string)
         (JSON_parse : string -> completion (value N))
         (proto : Prototype N) (v : value N),
    JSON_parse (JSON_stringify v) = Return v ->
    (v = Null ->
     fromJSON JSON_parse proto (getJSON JSON_stringify v)
     = Throw (TypeError "Cannot convert undefined or null to object"))
    /\ (forall ps : list (string * value N),
          own_enumerable v = Some ps ->
          unique_keys v ->
          (forall key, key ∈ ps.*1 -> assignable proto key) ->
          fromJSON JSON_parse proto (getJSON JSON_stringify v)
          = Return {| prototype := Given proto; own := ps |}).
Proof.
  intros N JSON_stringify JSON_parse proto v Hround.
  unfold fromJSON, getJSON. rewrite Hround. split.
  - intros ->. reflexivity.
  - intros ps Hown Huniq Hfree.
    unfold Object_keys. rewrite Hown.
    apply (forEach_copies proto v ps []); trivial.
    simpl. now apply (own_enumerable_NoDup v).
Qed.

Lemma fromJSON_of_getJSON_witness :
  example_circle
  = Return {| prototype := Given Circle_prototype; own := [("radius", Number 10%Z)] |}.
Proof.
  refine (proj2 (fromJSON_of_getJSON Z JSON.stringify JSON.parse Circle_prototype
                   (Object [("radius", Number 10%Z)]) _)
            [("radius", Number 10%Z)] _ _ _).
  - vm_compute. reflexivity.
  - reflexivity.
  - simpl. apply NoDup_singleton.
  - intros key Hkey. simpl in Hkey. apply list_elem_of_singleton in Hkey as ->.
    left. reflexivity.
Defined.

(** C7 as stated fails: [null] is plain data that JSON text round-trips,
    and [fromJSON(Circle.prototype, getJSON(null))] throws instead of
    producing an object. *)
Lemma fromJSON_of_null_throws :
  JSON.stringify (Null : value Z) = "null"
  /\ JSON.parse "null" = Return (Null : value Z)
  /\ fromJSON JSON.parse Circle_prototype (getJSON JSON.stringify Null)
     = Throw (TypeError "Cannot convert undefined or null to object").
Proof. repeat split; vm_compute; reflexivity. Qed.

(** Why the statement needs the prototype not to intercept: a property
    named [__proto__] reaches the setter of [Object.prototype]; the object
    returned has the parsed value as prototype and lacks the property. *)
Example fromJSON_proto_key :
  JSON.parse (JSON.stringify example_proto_key) = Return example_proto_key
  /\ fromJSON JSON.parse Circle_prototype (getJSON JSON.stringify example_proto_key)
     = Return {| prototype := Parsed (Object [("a", Number 1%Z)]);
                 own := [("x", Number 2%Z)] |}.
Proof. split; vm_compute; reflexivity. Qed.

(** Arrays and strings are copied index by index. *)
Example fromJSON_array :
  fromJSON JSON.parse Circle_prototype (getJSON JSON.stringify (Array [Str "a"; Null]))
  = Return {| prototype := Given Circle_prototype; own := [("0", Str "a"); ("1", Null)] |}.
Proof. reflexivity. Qed.

(** * Part III: further properties of the builder and of [fromJSON] *)

(** ** What one call touches *)

Lemma step_frame (c : call) (o o' : CreateElement.instance) (k : kind) :
  Instance.step c o = Return o' -> k <> kind_of c -> fragment k o' = fragment k o.
Proof.
  intros Hstep Hk.
  destruct c; simpl in Hstep;
    repeat match type of Hstep with
           | (if ?b then _ else _) = _ => destruct b; try discriminate
           end;
    injection Hstep as <-; destruct k; try reflexivity; contradiction.
Qed.

(** X1.  A fragment call on an instance of the store either returns the
    reference it was invoked on, having assigned the field of its own kind
    on that instance and nothing else in the store, or throws one of the
    builder's two errors and changes nothing. *)
Theorem fragment_call_frame :
  forall (h : CreateElement.heap) (this : CreateElement.ref)
         (o : CreateElement.instance) (c : call),
    h !! this = Some o ->
    (exists o' : CreateElement.instance,
        invoke this c h = (Return this, <[this := o']> h)
        /\ fragment (kind_of c) o' = assigned c o
        /\ (forall k, k <> kind_of c -> fragment k o' = fragment k o)
        /\ CreateElement.combines o' = CreateElement.combines o)
    \/ invoke this c h = (Throw DuplicateError, h)
    \/ invoke this c h = (Throw OrderViolation, h).
Proof.
  intros h this o c Hthis. rewrite (invoke_run h this o Hthis).
  destruct (step_outcome c o)
    as [[_ ->] | [(_ & _ & ->) | (_ & _ & o' & Hstep)]]; auto.
  left. exists o'. rewrite Hstep.
  destruct (step_assigns c o o' Hstep) as [Ha Hc].
  repeat split; trivial.
  intros k Hk. now apply (step_frame c o o' k).
Qed.

Lemma fragment_call_frame_witness :
  (exists o' : CreateElement.instance,
      invoke 0 (Class "b") {[0 := CreateElement.set_tags "a" CreateElement.constructor]}
      = (Return 0, <[0 := o']> {[0 := CreateElement.set_tags "a" CreateElement.constructor]})
      /\ fragment KClass o' = ".b"
      /\ (forall k, k <> KClass ->
            fragment k o' = fragment k (CreateElement.set_tags "a" CreateElement.constructor))
      /\ CreateElement.combines o' = "")
  \/ invoke 0 (Class "b") {[0 := CreateElement.set_tags "a" CreateElement.constructor]}
     = (Throw DuplicateError, {[0 := CreateElement.set_tags "a" CreateElement.constructor]})
  \/ invoke 0 (Class "b") {[0 := CreateElement.set_tags "a" CreateElement.constructor]}
     = (Throw OrderViolation, {[0 := CreateElement.set_tags "a" CreateElement.constructor]}).
Proof.
  refine (fragment_call_frame _ 0 (CreateElement.set_tags "a" CreateElement.constructor)
            (Class "b") _).
  reflexivity.
Defined.

(** ** The facade's entry points *)

Lemma step_constructor (c : call) :
  Instance.step c CreateElement.constructor
  = Return (match c with
            | Element v => CreateElement.set_tags v CreateElement.constructor
            | Id v => CreateElement.set_ids ("#" ++ v) CreateElement.constructor
            | Class v => CreateElement.set_classes ("." ++ v) CreateElement.constructor
            | Attr v => CreateElement.set_attrs ("[" ++ v ++ "]") CreateElement.constructor
            | PseudoClass v => CreateElement.set_pseudoClasses (":" ++ v) CreateElement.constructor
            | PseudoElement v => CreateElement.set_pseudoElements ("::" ++ v) CreateElement.constructor
            end).
Proof. destruct c; reflexivity. Qed.

(** X2.  Each fragment entry point of the facade succeeds on every store
    and for every value: it returns a reference the store did not use,
    leaves every existing selector as it was, and the new selector renders
    as the one fragment with its punctuation. *)
Theorem entry_points_start_fresh :
  forall (h : CreateElement.heap) (c : call),
    exists (r : CreateElement.ref) (h' : CreateElement.heap),
      entry c h = (Return r, h')
      /\ h !! r = None
      /\ (forall x, x <> r -> h' !! x = h !! x)
      /\ CreateElement.stringify r h' = (Return (fragment_text c), h').
Proof.
  intros h c.
  destruct (new_run h) as [Hnew Hfresh].
  match type of Hfresh with _ !! ?x = None => generalize dependent x end.
  intros r Hnew Hfresh.
  pose proof (invoke_run _ r _ (lookup_insert_eq h r CreateElement.constructor) c) as Hrun.
  rewrite step_constructor, insert_insert_eq in Hrun.
  eexists r, _. split; [|split; [exact Hfresh | split]].
  - assert (Hentry : entry c h = invoke r c (<[r := CreateElement.constructor]> h)).
    { destruct c; simpl;
        unfold cssSelectorBuilder.element, cssSelectorBuilder.id, cssSelectorBuilder.class,
          cssSelectorBuilder.attr, cssSelectorBuilder.pseudoClass,
          cssSelectorBuilder.pseudoElement, JS.bind; now rewrite Hnew. }
    rewrite Hentry. exact Hrun.
  - intros x Hx. now rewrite lookup_insert_ne.
  - rewrite (stringify_run _ _ _ (lookup_insert_eq _ _ _)).
    destruct c; unfold Instance.render; simpl; now rewrite ?string_app_nil_r.
Qed.

(** ** The pseudo-element closes a selector *)

(** X3.  [pseudoElement] has no ordering check: it succeeds on every
    instance whose pseudo-element is unset, whatever else is set.  Once it
    has been called in a chain, every further fragment call on the returned
    instance throws and leaves the store as it is. *)
Theorem pseudoElement_is_last :
  (forall (h : CreateElement.heap) (this : CreateElement.ref)
          (o : CreateElement.instance) (v : string),
      h !! this = Some o ->
      truthy (CreateElement.pseudoElements o) = false ->
      CreateElement.pseudoElement this v h
      = (Return this, <[this := CreateElement.set_pseudoElements ("::" ++ v) o]> h))
  /\ (forall (h h' : CreateElement.heap) (this r : CreateElement.ref)
             (cs : list call) (v : string) (c : call),
        chain this cs h = (Return r, h') ->
        In (PseudoElement v) cs ->
        invoke r c h' = (Throw DuplicateError, h')
        \/ invoke r c h' = (Throw OrderViolation, h')).
Proof.
  split.
  - intros h this o v Hthis Hpe.
    pose proof (invoke_run h this o Hthis (PseudoElement v)) as Hrun.
    simpl in Hrun. now rewrite Hpe in Hrun.
  - intros h h' this r cs v c Hrun Hin.
    destruct (chain_returns cs h h' this r Hrun) as (o & Hthis & Hok & -> & ->).
    { intros ->. destruct Hin. }
    pose proof (steps_fill cs (PseudoElement v) o Hin eq_refl Hok) as Hset.
    simpl in Hset.
    rewrite (invoke_run _ this _ (lookup_insert_eq _ _ _)).
    destruct (step_outcome c (snd (Instance.steps cs o)))
      as [[_ ->] | [(_ & _ & ->) | (Hrep & Hlater & _)]]; auto.
    exfalso.
    destruct c; unfold repeats, later_fragment_set in Hrep, Hlater;
      simpl in Hrep, Hlater; rewrite Hset in *;
      rewrite ?orb_true_r in Hlater; discriminate.
Qed.

Lemma pseudoElement_is_last_witness :
  CreateElement.pseudoElement 0 "after"
    {[0 := CreateElement.set_tags "p" CreateElement.constructor]}
  = (Return 0, <[0 := CreateElement.set_pseudoElements "::after"
                        (CreateElement.set_tags "p" CreateElement.constructor)]>
                 {[0 := CreateElement.set_tags "p" CreateElement.constructor]})
  /\ (invoke 0 (PseudoClass "hover")
        (snd (chain 0 [Element "p"; PseudoElement "after"] {[0 := CreateElement.constructor]}))
      = (Throw DuplicateError,
         snd (chain 0 [Element "p"; PseudoElement "after"] {[0 := CreateElement.constructor]}))
      \/ invoke 0 (PseudoClass "hover")
           (snd (chain 0 [Element "p"; PseudoElement "after"] {[0 := CreateElement.constructor]}))
         = (Throw OrderViolation,
            snd (chain 0 [Element "p"; PseudoElement "after"] {[0 := CreateElement.constructor]}))).
Proof.
  split.
  - refine (proj1 pseudoElement_is_last _ 0
              (CreateElement.set_tags "p" CreateElement.constructor) "after" _ _);
      reflexivity.
  - refine (proj2 pseudoElement_is_last {[0 := CreateElement.constructor]} _ 0 0
              [Element "p"; PseudoElement "after"] "after" (PseudoClass "hover") _ _).
    + reflexivity.
    + right. left. reflexivity.
Defined.

(** ** [combine] as a method *)



(** ** Nesting leaves no trace in the text *)

Lemma facade_combine_stringify (h : CreateElement.heap) (a b : CreateElement.ref)
    (c : string) (oa ob : CreateElement.instance) :
  h !! a = Some oa -> h !! b = Some ob ->
  exists (r : CreateElement.ref) (o : CreateElement.instance),
    h !! r = None
    /\ cssSelectorBuilder.combine a c b h = (Return r, <[r := o]> h)
    /\ Instance.render o = Instance.render oa ++ " " ++ c ++ " " ++ Instance.render ob.
Proof.
  intros Hoa Hob.
  destruct (facade_combine_run h a b c oa ob Hoa Hob) as (r & Hfresh & Hrun).
  eexists r, _. split; [exact Hfresh|]. split; [exact Hrun|].
  apply render_combined, truthy_app_r. reflexivity.
Qed.

(** X6.  The rendered text does not record how combinations were nested:
    for selectors [a], [b], [e] of the store,
    [combine(combine(a, c, b), d, e)] and [combine(a, c, combine(b, d, e))]
    both render as
    [a.stringify() + ' ' + c + ' ' + b.stringify() + ' ' + d + ' ' + e.stringify()]. *)
Theorem combine_text_is_associative :
  forall (h : CreateElement.heap) (a b e : CreateElement.ref) (c d sa sb se : string),
    fst (CreateElement.stringify a h) = Return sa ->
    fst (CreateElement.stringify b h) = Return sb ->
    fst (CreateElement.stringify e h) = Return se ->
    fst (combine_left a c b d e h)
    = Return (sa ++ " " ++ c ++ " " ++ sb ++ " " ++ d ++ " " ++ se)
    /\ fst (combine_right a c b d e h)
       = Return (sa ++ " " ++ c ++ " " ++ sb ++ " " ++ d ++ " " ++ se).
Proof.
  intros h a b e c d sa sb se Ha Hb He.
  destruct (stringify_returns _ _ _ Ha) as (oa & Hoa & <-).
  destruct (stringify_returns _ _ _ Hb) as (ob & Hob & <-).
  destruct (stringify_returns _ _ _ He) as (oe & Hoe & <-).
  split.
  - unfold combine_left, JS.bind.
    destruct (facade_combine_stringify h a b c oa ob Hoa Hob)
      as (r & o & Hfresh & -> & Hrender).
    assert (Hoe1 : <[r := o]> h !! e = Some oe)
      by (rewrite lookup_insert_ne; congruence).
    destruct (facade_combine_stringify _ r e d o oe (lookup_insert_eq _ _ _) Hoe1)
      as (t & ot & _ & -> & Hrender2).
    rewrite (stringify_run _ _ _ (lookup_insert_eq _ _ _)). simpl.
    now rewrite Hrender2, Hrender, !string_app_assoc.
  - unfold combine_right, JS.bind.
    destruct (facade_combine_stringify h b e d ob oe Hob Hoe)
      as (r & o & Hfresh & -> & Hrender).
    assert (Hoa1 : <[r := o]> h !! a = Some oa)
      by (rewrite lookup_insert_ne; congruence).
    destruct (facade_combine_stringify _ a r c oa o Hoa1 (lookup_insert_eq _ _ _))
      as (t & ot & _ & -> & Hrender2).
    rewrite (stringify_run _ _ _ (lookup_insert_eq _ _ _)). simpl.
    now rewrite Hrender2, Hrender.
Qed.

Lemma combine_text_is_associative_witness :
  fst (combine_left 0 "+" 1 "~" 2
         {[0 := CreateElement.set_tags "a" CreateElement.constructor;
           1 := CreateElement.set_tags "b" CreateElement.constructor;
           2 := CreateElement.set_tags "c" CreateElement.constructor]})
  = Return "a + b ~ c"
  /\ fst (combine_right 0 "+" 1 "~" 2
            {[0 := CreateElement.set_tags "a" CreateElement.constructor;
              1 := CreateElement.set_tags "b" CreateElement.constructor;
              2 := CreateElement.set_tags "c" CreateElement.constructor]})
     = Return "a + b ~ c".
Proof.
  apply (combine_text_is_associative _ 0 1 2 "+" "~" "a" "b" "c"); reflexivity.
Defined.

(** ** [checkFollowing] *)

(** X7.  [checkFollowing] reads only: it returns the store it received.
    Its answer grows along the canonical order: where it allows a kind it
    allows every later kind.  For a selector name that is none of the five
    it tests, it answers [true]. *)
Theorem checkFollowing_is_monotone :
  forall (h : CreateElement.heap) (this : CreateElement.ref) (o : CreateElement.instance),
    h !! this = Some o ->
    (forall selector, snd (CreateElement.checkFollowing this selector h) = h)
    /\ (forall k k' : kind,
          (rank k <= rank k')%nat ->
          fst (CreateElement.checkFollowing this (selector_name k) h) = Return true ->
          fst (CreateElement.checkFollowing this (selector_name k') h) = Return true)
    /\ (forall selector,
          (forall k, k <> KPseudoElement -> selector <> selector_name k) ->
          fst (CreateElement.checkFollowing this selector h) = Return true).
Proof.
  intros h this o Hthis. repeat split.
  - intros selector. now rewrite (checkFollowing_run h this o Hthis).
  - intros k k' Hrank.
    rewrite !(checkFollowing_run h this o Hthis). simpl.
    rewrite !check_later. unfold later_fragment_set.
    destruct k, k'; simpl in Hrank |- *; try lia; try (intros; reflexivity);
      destruct (truthy (CreateElement.ids o)), (truthy (CreateElement.classes o)),
        (truthy (CreateElement.attrs o)), (truthy (CreateElement.pseudoClasses o)),
        (truthy (CreateElement.pseudoElements o)); simpl; congruence.
  - intros selector Hother.
    rewrite (checkFollowing_run h this o Hthis). simpl.
    unfold Instance.check.
    destruct (String.eqb_spec selector "element") as [->|_];
      [now destruct (Hother KElement) |].
    destruct (String.eqb_spec selector "id") as [->|_];
      [now destruct (Hother KId) |].
    destruct (String.eqb_spec selector "class") as [->|_];
      [now destruct (Hother KClass) |].
    destruct (String.eqb_spec selector "attr") as [->|_];
      [now destruct (Hother KAttribute) |].
    destruct (String.eqb_spec selector "pseudoClass") as [->|_];
      [now destruct (Hother KPseudoClass) |].
    reflexivity.
Qed.

Lemma checkFollowing_is_monotone_witness :
  fst (CreateElement.checkFollowing 0 "attr"
         {[0 := CreateElement.set_classes ".c" CreateElement.constructor]}) = Return true.
Proof.
  refine (proj1 (proj2 (checkFollowing_is_monotone
            {[0 := CreateElement.set_classes ".c" CreateElement.constructor]} 0
            (CreateElement.set_classes ".c" CreateElement.constructor) _))
            KClass KAttribute _ _).
  - reflexivity.
  - simpl. lia.
  - reflexivity.
Defined.

(** ** The chains the builder accepts *)

Lemma repeats_single (c : call) (o : CreateElement.instance) :
  repeats c o = single (kind_of c) && truthy (fragment (kind_of c) o).
Proof. destruct c; reflexivity. Qed.

Lemma filled_cons (p : call) (pre : list call) (k : kind) :
  filled (p :: pre) k
  = leaves_fragment p && (rank (kind_of p) =? rank k)%nat || filled pre k.
Proof. reflexivity. Qed.

Lemma admitted_filled (pre : list call) (c : call) :
  admitted pre c
  = negb (single (kind_of c) && filled pre (kind_of c))
    && negb (existsb (fun k' => (rank (kind_of c) <? rank k')%nat && filled pre k')
               canonical_order).
Proof.
  induction pre as [|p pre IH].
  - destruct c; reflexivity.
  - change (admitted (p :: pre) c) with (negb (forbids p c) && admitted pre c).
    rewrite IH. clear IH. unfold forbids, canonical_order, existsb.
    rewrite !filled_cons.
    generalize (filled pre). intros f.
    destruct (leaves_fragment p), (kind_of c), (kind_of p); simpl;
      destruct (f KElement), (f KId), (f KClass), (f KAttribute),
        (f KPseudoClass), (f KPseudoElement); reflexivity.
Qed.

Lemma filled_snoc (pre : list call) (c : call) (k : kind) :
  filled (pre ++ [c]) k
  = filled pre k || leaves_fragment c && (rank (kind_of c) =? rank k)%nat.
Proof. unfold filled. rewrite existsb_app. simpl. now rewrite orb_false_r. Qed.

Lemma step_records (pre : list call) (c : call) (o o' : CreateElement.instance) :
  records pre o -> Instance.step c o = Return o' -> records (pre ++ [c]) o'.
Proof.
  intros Hrec Hstep k. rewrite filled_snoc, <- Hrec.
  destruct (step_assigns c o o' Hstep) as [Hassigned _].
  destruct (decide (rank (kind_of c) = rank k)) as [Heq|Hne].
  - assert (Hk : k = kind_of c) by (destruct k, (kind_of c); simpl in Heq; congruence).
    subst k. rewrite Nat.eqb_refl, andb_true_r, Hassigned.
    destruct c; simpl;
      rewrite ?truthy_app_r by reflexivity; rewrite ?orb_true_r; trivial.
    (* element: the tag was empty before the call *)
    simpl in Hstep. destruct (truthy (CreateElement.tags o)); [discriminate | reflexivity].
  - apply Nat.eqb_neq in Hne as Hne'. rewrite Hne', andb_false_r, orb_false_r.
    f_equal. apply (step_frame c o o' k Hstep). intros ->. now apply Hne.
Qed.

Lemma step_admitted (pre : list call) (c : call) (o : CreateElement.instance) :
  records pre o ->
  (exists o', Instance.step c o = Return o') <-> admitted pre c = true.
Proof.
  intros Hrec.
  assert (Hlater : later_fragment_set (kind_of c) o
                   = existsb (fun k' => (rank (kind_of c) <? rank k')%nat && filled pre k')
                       canonical_order).
  { unfold later_fragment_set, canonical_order, existsb. now rewrite !Hrec. }
  rewrite admitted_filled, <- Hlater, <- Hrec, <- repeats_single.
  destruct (step_outcome c o)
    as [[Hr Hs] | [(Hr & Hl & Hs) | (Hr & Hl & o' & Hs)]]; rewrite Hr, ?Hl, Hs; simpl.
  - split; [intros [o' Ho']|]; discriminate.
  - split; [intros [o' Ho']|]; discriminate.
  - split; eauto.
Qed.

Lemma steps_in_order (cs : list call) :
  forall (pre : list call) (o : CreateElement.instance),
    records pre o ->
    fst (Instance.steps cs o) = Return tt <-> in_order pre cs = true.
Proof.
  induction cs as [|c cs IH]; intros pre o Hrec; simpl.
  - tauto.
  - rewrite andb_true_iff, <- (step_admitted pre c o Hrec).
    destruct (Instance.step c o) as [o'|e] eqn:Hstep.
    + rewrite (IH (pre ++ [c])%list o' (step_records pre c o o' Hrec Hstep)).
      split; [intros H; split; eauto | tauto].
    + simpl. split; [discriminate | intros [[o' Ho'] _]; discriminate].
Qed.

(** X8.  The chains of fragment calls the builder accepts on a new
    selector are exactly the chains in canonical order: the chain runs to
    its end without throwing if and only if no call comes after a call
    that left a fragment of a later kind, and no [element], [id] or
    [pseudoElement] call comes after a call that left a fragment of its
    own kind.  Only the kinds of the calls and the emptiness of element
    names matter; the values are never inspected. *)
Theorem accepted_chains_are_in_order :
  forall (h : CreateElement.heap) (cs : list call),
    (exists (r : CreateElement.ref) (h' : CreateElement.heap),
        (let! s := CreateElement.new in chain s cs) h = (Return r, h'))
    <-> in_order [] cs = true.
Proof.
  intros h cs.
  assert (Hrec : records [] CreateElement.constructor) by (intros k; now destruct k).
  rewrite <- (steps_in_order cs [] CreateElement.constructor Hrec).
  unfold JS.bind. destruct (new_run h) as [-> _].
  rewrite (chain_run cs _ _ CreateElement.constructor) by apply lookup_insert_eq.
  destruct (fst (Instance.steps cs CreateElement.constructor)) as [[]|e]; split.
  - reflexivity.
  - eauto.
  - intros (r & h' & Hrun). discriminate.
  - discriminate.
Qed.

Example in_order_examples :
  in_order [] [Element "div"; Id "main"; Class "container"; Class "draggable"] = true
  /\ in_order [] [Element "a"; Attr "href"; PseudoClass "focus"] = true
  /\ in_order [] [Element ""; Element "td"] = true
  /\ in_order [] [Id "x"; Element "p"] = false
  /\ in_order [] [Class "a"; Attr "b"; Class "c"] = false
  /\ in_order [] [Id "x"; Id "y"] = false.
Proof. repeat split. Qed.

(** ** [fromJSON]: what the prototype chain does to the copy *)

Section Copy.

Context {N : Type}.

Lemma get_member (obj : value N) (ps1 ps2 : list (string * value N))
    (k : string) (x : value N) :
  own_enumerable obj = Some (ps1 ++ (k, x) :: ps2)%list ->
  k ∉ ps1.*1 -> get obj k = Some x.
Proof.
  intros Hown Hk. unfold get. rewrite Hown, (assoc_app_r k ps1 _ Hk). simpl.
  now rewrite String.eqb_refl.
Qed.

(** The assignment of a property the result does not have yet. *)
Lemma put_fresh (result : object N) (k : string) (x : value N) :
  k ∉ (own result).*1 ->
  put result k x
  = match find_inherited (prototype result) k with
    | NotFound | WritableData =>
        Return {| prototype := prototype result; own := (own result ++ [(k, x)])%list |}
    | ReadOnly => Return result
    | Setter set =>
        match set (own result) x with
        | Return ps => Return {| prototype := prototype result; own := ps |}
        | Throw e => Throw e
        end
    | ProtoSetter =>
        match x with
        | Object _ | Array _ => Return {| prototype := Parsed x; own := own result |}
        | Null => Return {| prototype := NoPrototype; own := own result |}
        | Boolean _ | Number _ | Str _ => Return result
        end
    end.
Proof.
  intros Hk. unfold put.
  rewrite (assoc_not_elem k _ Hk), (define_not_elem k x _ Hk). reflexivity.
Qed.

Lemma forEach_app (l1 l2 : list string)
    (f : string -> object N -> completion (object N)) (r : object N) :
  forEach (l1 ++ l2) f r
  = match forEach l1 f r with
    | Return r' => forEach l2 f r'
    | Throw e => Throw e
    end.
Proof.
  revert r. induction l1 as [|k l1 IH]; intros r; simpl; [reflexivity|].
  destruct (f k r); [apply IH | reflexivity].
Qed.

Lemma NoDup_keys_head (ps1 ps2 : list (string * value N)) (k : string) (x : value N) :
  NoDup ((ps1 ++ (k, x) :: ps2)%list).*1 -> (k ∉ ps1.*1) /\ (k ∉ ps2.*1).
Proof.
  rewrite fmap_app, fmap_cons, NoDup_app, NoDup_cons. simpl.
  intros (_ & Hdisj & Hk2 & _). split; [|exact Hk2].
  intros Hin. apply (Hdisj k Hin). now left.
Qed.

(** A stretch of properties that the chain behind [p] lets through is
    appended as it is. *)
Lemma forEach_copies_stretch (p : prototype_slot N) (obj : value N)
    (ps3 ps2 : list (string * value N)) :
  forall ps1 own0 : list (string * value N),
    own_enumerable obj = Some (ps1 ++ ps2 ++ ps3)%list ->
    NoDup ((ps1 ++ ps2 ++ ps3)%list).*1 ->
    own0.*1 ⊆ ps1.*1 ->
    (forall key, key ∈ ps2.*1 ->
       find_inherited p key = NotFound \/ find_inherited p key = WritableData) ->
    forEach ps2.*1 (copy_property obj) {| prototype := p; own := own0 |}
    = Return {| prototype := p; own := (own0 ++ ps2)%list |}.
Proof.
  induction ps2 as [|[k x] ps2 IH]; intros ps1 own0 Hown Hnodup Hsub Hfree.
  - simpl. now rewrite app_nil_r.
  - simpl app in Hown, Hnodup.
    destruct (NoDup_keys_head ps1 (ps2 ++ ps3) k x Hnodup) as [Hk1 _].
    assert (Hk0 : k ∉ own0.*1) by (intros Hin; apply Hk1, Hsub, Hin).
    rewrite fmap_cons. simpl. unfold copy_property.
    rewrite (get_member obj ps1 (ps2 ++ ps3) k x Hown Hk1).
    rewrite put_fresh by exact Hk0. simpl.
    assert (Hfreek : find_inherited p k = NotFound \/ find_inherited p k = WritableData).
    { apply Hfree. rewrite fmap_cons. now left. }
    replace (own0 ++ (k, x) :: ps2)%list with ((own0 ++ [(k, x)]) ++ ps2)%list
      by now rewrite <- app_assoc.
    assert (Hnext : forEach ps2.*1 (copy_property obj)
                      {| prototype := p; own := (own0 ++ [(k, x)])%list |}
                    = Return {| prototype := p; own := ((own0 ++ [(k, x)]) ++ ps2)%list |}).
    { apply (IH (ps1 ++ [(k, x)])%list).
      - now rewrite <- app_assoc.
      - now rewrite <- app_assoc.
      - rewrite !fmap_app. intros key [Hin|Hin]%elem_of_app; apply elem_of_app;
          [left; now apply Hsub | now right].
      - intros key Hkey. apply Hfree. rewrite fmap_cons. now right. }
    destruct Hfreek as [-> | ->]; exact Hnext.
Qed.

End Copy.

Section ReadOnly.

Context {N : Type}.

Lemma filter_keys_subset (f : string * value N -> bool) (ps : list (string * value N)) :
  (List.filter f ps).*1 ⊆ ps.*1.
Proof.
  induction ps as [|p ps IH]; simpl; [done|].
  destruct (f p); rewrite ?fmap_cons; intros key Hkey.
  - apply elem_of_cons in Hkey as [->|Hkey]; [now left | right; now apply IH].
  - right. now apply IH.
Qed.

Lemma forEach_filters (proto : Prototype N) (obj : value N)
    (ps2 : list (string * value N)) :
  forall ps1 : list (string * value N),
    own_enumerable obj = Some (ps1 ++ ps2)%list ->
    NoDup ((ps1 ++ ps2)%list).*1 ->
    (forall key, key ∈ ps2.*1 -> assignable proto key \/ on_chain proto key = ReadOnly) ->
    forEach ps2.*1 (copy_property obj)
      {| prototype := Given proto; own := List.filter (writable_through proto) ps1 |}
    = Return {| prototype := Given proto;
                own := List.filter (writable_through proto) (ps1 ++ ps2) |}.
Proof.
  induction ps2 as [|[k x] ps2 IH]; intros ps1 Hown Hnodup Hcases.
  - simpl. now rewrite app_nil_r.
  - destruct (NoDup_keys_head ps1 ps2 k x Hnodup) as [Hk1 _].
    assert (Hk0 : k ∉ (List.filter (writable_through proto) ps1).*1)
      by (intros Hin; apply Hk1; revert Hin; apply filter_keys_subset).
    rewrite fmap_cons. simpl. unfold copy_property.
    rewrite (get_member obj ps1 ps2 k x Hown Hk1).
    rewrite put_fresh by exact Hk0. simpl.
    specialize (IH (ps1 ++ [(k, x)])%list).
    rewrite <- !app_assoc in IH. simpl in IH.
    rewrite List.filter_app in IH. simpl in IH. unfold writable_through at 2 in IH.
    simpl in IH.
    assert (Htail : forall key, key ∈ ps2.*1 ->
                      assignable proto key \/ on_chain proto key = ReadOnly).
    { intros key Hkey. apply Hcases. rewrite fmap_cons. now right. }
    destruct (Hcases k) as [[Hc | Hc] | Hc]; [rewrite fmap_cons; now left | ..];
      rewrite Hc in IH |- *; simpl in IH; rewrite ?app_nil_r in IH; now apply IH.
Qed.

End ReadOnly.

(** X9.  Properties that the chain of [proto] makes read-only are dropped
    without an error, the others are copied.  For a value [v] other than
    [null] that JSON text round-trips, whose keys reach on the chain only
    nothing, a writable property or a read-only one, [fromJSON(proto,
    getJSON(v))] returns an object with prototype [proto] whose own
    properties are those of [v] that are not read-only through [proto],
    in the order of [v]. *)
Theorem fromJSON_drops_read_only :
  forall (N : Type) (JSON_stringify : value N -> string)
         (JSON_parse : string -> completion (value N))
         (proto : Prototype N) (v : value N) (ps : list (string * value N)),
    JSON_parse (JSON_stringify v) = Return v ->
    own_enumerable v = Some ps ->
    unique_keys v ->
    (forall key, key ∈ ps.*1 -> assignable proto key \/ on_chain proto key = ReadOnly) ->
    fromJSON JSON_parse proto (getJSON JSON_stringify v)
    = Return {| prototype := Given proto; own := List.filter (writable_through proto) ps |}.
Proof.
  intros N JSON_stringify JSON_parse proto v ps Hround Hown Huniq Hcases.
  unfold fromJSON, getJSON. rewrite Hround. unfold Object_keys. rewrite Hown.
  apply (forEach_filters proto v ps []); trivial.
  simpl. now apply (own_enumerable_NoDup v).
Qed.

Lemma fromJSON_drops_read_only_witness :
  fromJSON JSON.parse Shape_prototype
    (getJSON JSON.stringify (Object [("width", Number 2%Z); ("area", Number 9%Z); ("height", Number 3%Z)]))
  = Return {| prototype := Given Shape_prototype;
              own := [("width", Number 2%Z); ("height", Number 3%Z)] |}.
Proof.
  refine (fromJSON_drops_read_only Z JSON.stringify JSON.parse Shape_prototype
            (Object [("width", Number 2%Z); ("area", Number 9%Z); ("height", Number 3%Z)])
            [("width", Number 2%Z); ("area", Number 9%Z); ("height", Number 3%Z)] _ _ _ _).
  - vm_compute. reflexivity.
  - reflexivity.
  - simpl. apply (bool_decide_unpack _). vm_compute. exact I.
  - intros key Hkey. simpl in Hkey.
    repeat (apply elem_of_cons in Hkey as [->|Hkey]);
      [left; left; reflexivity | right; reflexivity | left; left; reflexivity |].
    now apply elem_of_nil in Hkey.
Defined.

Section NoSetter.

Context {N : Type}.

Lemma sublist_keys (own0 ps1 : list (string * value N)) (k : string) :
  own0 `sublist_of` ps1 -> k ∉ ps1.*1 -> k ∉ own0.*1.
Proof.
  intros Hsub Hk Hin.
  apply list_elem_of_fmap in Hin as ([k' y] & -> & Hin).
  apply Hk, list_elem_of_fmap. exists (k', y). split; [reflexivity|].
  now apply (sublist_subseteq _ _ Hsub).
Qed.

(** Without user-defined setters the loop never throws, only ever adds
    properties of the source, and changes the prototype only through a
    [__proto__] setter. *)
Lemma forEach_without_setters (proto : Prototype N) (obj : value N)
    (ps2 : list (string * value N)) :
  forall (ps1 : list (string * value N)) (result : object N),
    own_enumerable obj = Some (ps1 ++ ps2)%list ->
    NoDup ((ps1 ++ ps2)%list).*1 ->
    (forall key set, key ∈ ps2.*1 -> on_chain proto key <> Setter set) ->
    own result `sublist_of` ps1 ->
    (forall proto', prototype result = Given proto' -> proto' = proto) ->
    exists o : object N,
      forEach ps2.*1 (copy_property obj) result = Return o
      /\ own o `sublist_of` (ps1 ++ ps2)%list
      /\ ((forall key, key ∈ ps2.*1 -> on_chain proto key <> ProtoSetter) ->
          prototype result = Given proto -> prototype o = Given proto).
Proof.
  induction ps2 as [|[k x] ps2 IH]; intros ps1 result Hown Hnodup Hno Hsub Hslot.
  - exists result. simpl. rewrite app_nil_r. auto.
  - destruct (NoDup_keys_head ps1 ps2 k x Hnodup) as [Hk1 _].
    pose proof (sublist_keys _ _ k Hsub Hk1) as Hk0.
    rewrite fmap_cons. simpl. unfold copy_property at 1.
    rewrite (get_member obj ps1 ps2 k x Hown Hk1).
    rewrite put_fresh by exact Hk0.
    assert (Hgrow : (own result ++ [(k, x)])%list `sublist_of` (ps1 ++ [(k, x)])%list)
      by (apply sublist_app; [exact Hsub | reflexivity]).
    assert (Hkeep : own result `sublist_of` (ps1 ++ [(k, x)])%list)
      by now apply sublist_inserts_r.
    assert (Hlift : forall result' : object N,
               own result' `sublist_of` (ps1 ++ [(k, x)])%list ->
               (forall proto', prototype result' = Given proto' -> proto' = proto) ->
               (on_chain proto k <> ProtoSetter ->
                prototype result = Given proto -> prototype result' = Given proto) ->
               exists o : object N,
                 forEach ps2.*1 (copy_property obj) result' = Return o
                 /\ own o `sublist_of` (ps1 ++ (k, x) :: ps2)%list
                 /\ ((forall key, key ∈ ((k, x) :: ps2).*1 -> on_chain proto key <> ProtoSetter) ->
                     prototype result = Given proto -> prototype o = Given proto)).
    { intros result' Hsub' Hslot' Hsame.
      destruct (IH (ps1 ++ [(k, x)])%list result') as (o & Hrun & Hsubo & Hproto);
        rewrite <- ?app_assoc; trivial.
      { intros key set Hkey. apply Hno. rewrite fmap_cons. now right. }
      exists o. rewrite <- app_assoc in Hsubo. repeat split; trivial.
      intros Hnp Hgiven. apply Hproto.
      - intros key Hkey. apply Hnp. rewrite fmap_cons. now right.
      - apply Hsame; [|exact Hgiven]. apply Hnp. rewrite fmap_cons. now left. }
    destruct result as [slot own0]. simpl in *.
    destruct slot as [proto'|xp|]; simpl find_inherited.
    + rewrite (Hslot proto' eq_refl) in *.
      destruct (on_chain proto k) as [| | |set|] eqn:Hk.
      * apply Hlift; simpl; [assumption | intros ? [=]; congruence | auto].
      * apply Hlift; simpl; [assumption | intros ? [=]; congruence | auto].
      * apply Hlift; simpl; [assumption | intros ? [=]; congruence | auto].
      * exfalso. apply (Hno k set); [now left | exact Hk].
      * destruct x; apply Hlift; simpl;
          first [ assumption
                | intros ? [=]; congruence
                | intros Hnp _; contradiction ].
    + destruct (get xp k);
        [| destruct (String.eqb k "__proto__"); [destruct x|]];
        apply Hlift; simpl;
          first [ assumption | intros ? [=]; congruence | intros _ [=] ].
    + apply Hlift; simpl;
        first [ assumption | intros ? [=]; congruence | intros _ [=] ].
Qed.

End NoSetter.

(** X11.  Through a prototype whose chain has no setter for any key of
    [v], [fromJSON(proto, getJSON(v))] never throws for a round-tripping
    [v] other than [null]: it returns an object whose own properties are
    properties of [v], in the order of [v], none invented and none
    altered; and unless some key of [v] reaches a [__proto__] setter, the
    prototype of that object is [proto]. *)
Theorem fromJSON_without_setters :
  forall (N : Type) (JSON_stringify : value N -> string)
         (JSON_parse : string -> completion (value N))
         (proto : Prototype N) (v : value N) (ps : list (string * value N)),
    JSON_parse (JSON_stringify v) = Return v ->
    own_enumerable v = Some ps ->
    unique_keys v ->
    (forall key set, key ∈ ps.*1 -> on_chain proto key <> Setter set) ->
    exists o : object N,
      fromJSON JSON_parse proto (getJSON JSON_stringify v) = Return o
      /\ own o `sublist_of` ps
      /\ ((forall key, key ∈ ps.*1 -> on_chain proto key <> ProtoSetter) ->
          prototype o = Given proto).
Proof.
  intros N JSON_stringify JSON_parse proto v ps Hround Hown Huniq Hno.
  unfold fromJSON, getJSON. rewrite Hround. unfold Object_keys. rewrite Hown.
  destruct (forEach_without_setters proto v ps []
              {| prototype := Given proto; own := [] |})
    as (o & Hrun & Hsub & Hproto); trivial.
  - simpl. now apply (own_enumerable_NoDup v).
  - simpl. intros proto' [= <-]. reflexivity.
  - exists o. repeat split; trivial. intros Hnp. now apply Hproto.
Qed.

Lemma fromJSON_without_setters_witness :
  exists o : object Z,
    fromJSON JSON.parse Shape_prototype
      (getJSON JSON.stringify (Object [("area", Number 9%Z); ("width", Number 2%Z)]))
    = Return o
    /\ own o `sublist_of` [("area", Number 9%Z); ("width", Number 2%Z)]
    /\ ((forall key, key ∈ [("area", Number 9%Z); ("width", Number 2%Z)].*1 ->
           on_chain Shape_prototype key <> ProtoSetter) ->
        prototype o = Given Shape_prototype).
Proof.
  refine (fromJSON_without_setters Z JSON.stringify JSON.parse Shape_prototype
            (Object [("area", Number 9%Z); ("width", Number 2%Z)])
            [("area", Number 9%Z); ("width", Number 2%Z)] _ _ _ _).
  - vm_compute. reflexivity.
  - reflexivity.
  - simpl. apply (bool_decide_unpack _). vm_compute. exact I.
  - intros key set Hkey. simpl in Hkey.
    repeat (apply elem_of_cons in Hkey as [->|Hkey]); [discriminate | discriminate |].
    now apply elem_of_nil in Hkey.
Defined.

(** ** Each call appends its fragment *)

Lemma or_falsy (a b : string) :
  truthy (a ||| b) = false -> truthy a = false /\ truthy b = false.
Proof. rewrite truthy_or. apply orb_false_iff. Qed.

(** X13.  On an instance without combined expression, a fragment call
    that succeeds appends its fragment, with its punctuation, to the text
    [stringify()] returned before the call; the one exception is [attr]
    on an instance that already has an attribute, which replaces it. *)
Theorem successful_call_appends_fragment :
  forall (h h' : CreateElement.heap) (this : CreateElement.ref)
         (o : CreateElement.instance) (c : call) (before : string),
    h !! this = Some o ->
    truthy (CreateElement.combines o) = false ->
    (kind_of c = KAttribute -> CreateElement.attrs o = "") ->
    fst (CreateElement.stringify this h) = Return before ->
    invoke this c h = (Return this, h') ->
    CreateElement.stringify this h' = (Return (before ++ fragment_text c), h').
Proof.
  intros h h' this o c before Hthis Hcb Hattr Hbefore Hrun.
  rewrite (stringify_run h this o Hthis) in Hbefore. simpl in Hbefore.
  injection Hbefore as <-.
  rewrite (invoke_run h this o Hthis) in Hrun.
  destruct (Instance.step c o) as [o'|e] eqn:Hstep; [|discriminate].
  injection Hrun as <-.
  rewrite (stringify_run _ _ _ (lookup_insert_eq _ _ _)).
  f_equal. f_equal.
  destruct o as [t i cl a pc pe cb]. simpl in Hcb, Hattr.
  unfold Instance.render. 
  destruct c; unfold Instance.step, Instance.check in Hstep; simpl in Hstep;
    repeat match type of Hstep with
           | (if negb (negb ?b) then _ else _) = _ =>
               destruct b eqn:?; simpl in Hstep; [discriminate|]
           | (if ?b then _ else _) = _ =>
               destruct b eqn:?; simpl in Hstep; [discriminate|]
           end;
    injection Hstep as <-; simpl; rewrite Hcb;
    repeat match goal with
           | H : truthy (_ ||| _) = false |- _ => apply or_falsy in H as [? ?]
           | H : truthy _ = false |- _ => apply truthy_false in H
           end;
    subst; rewrite ?Hattr by reflexivity;
    rewrite ?string_app_nil_r, ?string_app_nil_l, ?string_app_assoc;
    reflexivity.
Qed.

Lemma successful_call_appends_fragment_witness :
  CreateElement.stringify 0
    (snd (invoke 0 (PseudoClass "focus")
            {[0 := CreateElement.set_attrs "[href]" (CreateElement.set_tags "a" CreateElement.constructor)]}))
  = (Return ("a[href]" ++ fragment_text (PseudoClass "focus")),
     snd (invoke 0 (PseudoClass "focus")
            {[0 := CreateElement.set_attrs "[href]" (CreateElement.set_tags "a" CreateElement.constructor)]})).
Proof.
  refine (successful_call_appends_fragment
            {[0 := CreateElement.set_attrs "[href]" (CreateElement.set_tags "a" CreateElement.constructor)]}
            _ 0
            (CreateElement.set_attrs "[href]" (CreateElement.set_tags "a" CreateElement.constructor))
            (PseudoClass "focus") "a[href]" _ _ _ _ _);
    try reflexivity.
  discriminate.
Defined.

(** ** A combination is a snapshot *)

Lemma invoke_keeps_combines (h : CreateElement.heap) (t x : CreateElement.ref)
    (c : call) (o : CreateElement.instance) :
  h !! t = Some o ->
  exists o', snd (invoke x c h) !! t = Some o'
             /\ CreateElement.combines o' = CreateElement.combines o.
Proof.
  intros Ht.
  destruct (h !! x) as [ox|] eqn:Hx.
  - rewrite (invoke_run h x ox Hx).
    destruct (Instance.step c ox) as [ox'|e] eqn:Hstep; simpl; [|eauto].
    destruct (decide (x = t)) as [->|Hne].
    + rewrite lookup_insert_eq. exists ox'. split; [reflexivity|].
      assert (ox = o) by congruence. subst ox.
      now apply step_assigns in Hstep.
    + rewrite lookup_insert_ne by exact Hne. eauto.
  - rewrite (invoke_none h x c Hx). simpl. eauto.
Qed.

Lemma perform_keeps_combines (ops : list (CreateElement.ref * call)) :
  forall (h : CreateElement.heap) (t : CreateElement.ref) (o : CreateElement.instance),
    h !! t = Some o ->
    exists o', perform ops h !! t = Some o'
               /\ CreateElement.combines o' = CreateElement.combines o.
Proof.
  induction ops as [|[x c] ops IH]; intros h t o Ht; simpl; [eauto|].
  destruct (invoke_keeps_combines h t x c o Ht) as (o1 & H1 & Hc1).
  destruct (IH _ t o1 H1) as (o' & H' & Hc').
  exists o'. split; [exact H' | congruence].
Qed.

(** X5.  A combination is a snapshot.  On any store, a selector whose
    combined expression is set renders as that expression after any
    sequence of fragment calls, made on any selectors of the store (itself
    included), in any order, whether they succeed or throw.  In
    particular the selector returned by [combine(a, c, b)] keeps rendering
    as [a.stringify() + ' ' + c + ' ' + b.stringify()], the texts taken at
    the time of the combination, whatever is then called on [a], on [b] or
    elsewhere. *)
Theorem combination_is_a_snapshot :
  (forall (h : CreateElement.heap) (t : CreateElement.ref) (o : CreateElement.instance)
          (ops : list (CreateElement.ref * call)),
      h !! t = Some o ->
      truthy (CreateElement.combines o) = true ->
      CreateElement.stringify t (perform ops h)
      = (Return (CreateElement.combines o), perform ops h))
  /\ (forall (h : CreateElement.heap) (a b : CreateElement.ref) (c sa sb : string),
        fst (CreateElement.stringify a h) = Return sa ->
        fst (CreateElement.stringify b h) = Return sb ->
        exists (t : CreateElement.ref) (h1 : CreateElement.heap),
          cssSelectorBuilder.combine a c b h = (Return t, h1)
          /\ a <> t /\ b <> t
          /\ forall ops : list (CreateElement.ref * call),
               CreateElement.stringify t (perform ops h1)
               = (Return (sa ++ " " ++ c ++ " " ++ sb), perform ops h1)).
Proof.
  assert (Hgen : forall h t o ops,
             h !! t = Some o ->
             truthy (CreateElement.combines o) = true ->
             CreateElement.stringify t (perform ops h)
             = (Return (CreateElement.combines o), perform ops h)).
  { intros h t o ops Ht Hcb.
    destruct (perform_keeps_combines ops h t o Ht) as (o' & H' & Hc').
    rewrite (stringify_run _ _ _ H'). unfold Instance.render.
    now rewrite Hc', Hcb. }
  split; [exact Hgen|].
  intros h a b c sa sb Ha Hb.
  destruct (stringify_returns _ _ _ Ha) as (oa & Hoa & <-).
  destruct (stringify_returns _ _ _ Hb) as (ob & Hob & <-).
  destruct (facade_combine_run h a b c oa ob Hoa Hob) as (t & Hfresh & Hrun).
  eexists t, _. split; [exact Hrun|].
  split; [congruence|]. split; [congruence|].
  intros ops.
  rewrite (Hgen _ t _ ops (lookup_insert_eq _ _ _)); [reflexivity|].
  simpl. apply truthy_app_r. reflexivity.
Qed.

Lemma combination_is_a_snapshot_witness :
  exists (t : CreateElement.ref) (h1 : CreateElement.heap),
    cssSelectorBuilder.combine 0 "~" 1
      {[0 := CreateElement.set_tags "a" CreateElement.constructor;
        1 := CreateElement.set_tags "b" CreateElement.constructor]} = (Return t, h1)
    /\ 0 <> t /\ 1 <> t
    /\ forall ops : list (CreateElement.ref * call),
         CreateElement.stringify t (perform ops h1) = (Return "a ~ b", perform ops h1).
Proof.
  apply (proj2 combination_is_a_snapshot _ 0 1 "~" "a" "b"); reflexivity.
Defined.

Example snapshot_after_calls_on_both_operands :
  let h := snd (cssSelectorBuilder.combine 0 "~" 1
                  {[0 := CreateElement.set_tags "a" CreateElement.constructor;
                    1 := CreateElement.set_tags "b" CreateElement.constructor]}) in
  let h' := perform [(0, Class "x"); (0, Element "again"); (1, Id "y"); (2, PseudoClass "z")] h in
  fst (CreateElement.stringify 2 h') = Return "a ~ b"
  /\ fst (CreateElement.stringify 0 h') = Return "a.x"
  /\ fst (CreateElement.stringify 1 h') = Return "b#y".
Proof. repeat split; vm_compute; reflexivity. Qed.

(** ** [fromJSON]: the [__proto__] key and throwing setters *)

Section Stretch.

Context {N : Type}.

(** A stretch of properties that reach no setter behind [proto]: the
    read-only ones are dropped, the others appended. *)
Lemma forEach_filters_stretch (proto : Prototype N) (obj : value N)
    (ps3 ps2 : list (string * value N)) :
  forall ps1 own0 : list (string * value N),
    own_enumerable obj = Some (ps1 ++ ps2 ++ ps3)%list ->
    NoDup ((ps1 ++ ps2 ++ ps3)%list).*1 ->
    own0.*1 ⊆ ps1.*1 ->
    (forall key, key ∈ ps2.*1 -> assignable proto key \/ on_chain proto key = ReadOnly) ->
    forEach ps2.*1 (copy_property obj) {| prototype := Given proto; own := own0 |}
    = Return {| prototype := Given proto;
                own := (own0 ++ List.filter (writable_through proto) ps2)%list |}.
Proof.
  induction ps2 as [|[k x] ps2 IH]; intros ps1 own0 Hown Hnodup Hsub Hcases.
  - simpl. now rewrite app_nil_r.
  - simpl app in Hown, Hnodup.
    destruct (NoDup_keys_head ps1 (ps2 ++ ps3) k x Hnodup) as [Hk1 _].
    assert (Hk0 : k ∉ own0.*1) by (intros Hin; apply Hk1, Hsub, Hin).
    rewrite fmap_cons. simpl forEach. unfold copy_property at 1.
    rewrite (get_member obj ps1 (ps2 ++ ps3) k x Hown Hk1).
    rewrite put_fresh by exact Hk0. simpl prototype. simpl own. simpl find_inherited.
    assert (Htail : forall key, key ∈ ps2.*1 ->
                      assignable proto key \/ on_chain proto key = ReadOnly).
    { intros key Hkey. apply Hcases. rewrite fmap_cons. now right. }
    assert (Hnext : forall own1 : list (string * value N),
               own1.*1 ⊆ (ps1 ++ [(k, x)])%list.*1 ->
               forEach ps2.*1 (copy_property obj) {| prototype := Given proto; own := own1 |}
               = Return {| prototype := Given proto;
                           own := (own1 ++ List.filter (writable_through proto) ps2)%list |}).
    { intros own1 Hsub1. apply (IH (ps1 ++ [(k, x)])%list); trivial;
        now rewrite <- app_assoc. }
    simpl List.filter. unfold writable_through at 1. simpl fst.
    destruct (Hcases k) as [[Hc | Hc] | Hc]; [rewrite fmap_cons; now left | ..];
      rewrite Hc; simpl.
    + rewrite (Hnext (own0 ++ [(k, x)])%list); [now rewrite <- app_assoc|].
      rewrite !fmap_app. intros key [Hin|Hin]%elem_of_app; apply elem_of_app;
        [left; now apply Hsub | now right].
    + rewrite (Hnext (own0 ++ [(k, x)])%list); [now rewrite <- app_assoc|].
      rewrite !fmap_app. intros key [Hin|Hin]%elem_of_app; apply elem_of_app;
        [left; now apply Hsub | now right].
    + apply Hnext. rewrite fmap_app. intros key Hin. apply elem_of_app. left. now apply Hsub.
Qed.

End Stretch.

(** X10.  A property named [__proto__] is never copied when the chain of
    [proto] has the [__proto__] setter of [Object.prototype]: the
    assignment goes to the prototype of the result.  Let [v] be a
    round-tripping object with such a property of value [x], whose other
    keys reach no setter on the chain of [proto].  The result's prototype
    is [x] when [x] is an object or an array, none when [x] is [null], and
    [proto] otherwise.  Its own properties are the properties of [v]
    before [__proto__] that are not read-only through [proto], followed by
    all the properties after it when the prototype was replaced, and by
    those that are not read-only through [proto] when it was not. *)
Theorem fromJSON_proto_key_sets_prototype :
  forall (N : Type) (JSON_stringify : value N -> string)
         (JSON_parse : string -> completion (value N))
         (proto : Prototype N) (ps1 ps2 : list (string * value N)) (x : value N),
    JSON_parse (JSON_stringify (Object (ps1 ++ ("__proto__", x) :: ps2)))
    = Return (Object (ps1 ++ ("__proto__", x) :: ps2)) ->
    NoDup ((ps1 ++ ("__proto__", x) :: ps2)%list).*1 ->
    on_chain proto "__proto__" = ProtoSetter ->
    (forall key, key ∈ (ps1 ++ ps2)%list.*1 ->
       assignable proto key \/ on_chain proto key = ReadOnly) ->
    fromJSON JSON_parse proto (getJSON JSON_stringify (Object (ps1 ++ ("__proto__", x) :: ps2)))
    = Return {| prototype := after_proto_assignment proto x;
                own := (List.filter (writable_through proto) ps1
                        ++ (if replaces_prototype x then ps2
                            else List.filter (writable_through proto) ps2))%list |}.
Proof.
  intros N JSON_stringify JSON_parse proto ps1 ps2 x Hround Hnodup Hsetter Hcases.
  unfold fromJSON, getJSON. rewrite Hround. unfold Object_keys. simpl own_enumerable. cbv iota.
  destruct (NoDup_keys_head ps1 ps2 "__proto__" x Hnodup) as [Hk1 Hk2].
  rewrite fmap_app, fmap_cons, forEach_app.
  rewrite (forEach_filters_stretch proto _ (("__proto__", x) :: ps2) ps1 [] []); trivial.
  2:{ intros key Hkey. apply Hcases. rewrite fmap_app. apply elem_of_app. now left. }
  simpl app. simpl forEach. unfold copy_property at 1.
  rewrite (get_member (Object (ps1 ++ ("__proto__", x) :: ps2)) ps1 ps2 "__proto__" x
             eq_refl Hk1).
  assert (Hk0 : "__proto__" ∉ (List.filter (writable_through proto) ps1).*1)
    by (intros Hin; apply Hk1; revert Hin; apply filter_keys_subset).
  rewrite put_fresh by exact Hk0. simpl prototype. simpl own. simpl find_inherited.
  rewrite Hsetter.
  assert (Hsub : (List.filter (writable_through proto) ps1).*1
                 ⊆ (ps1 ++ [("__proto__", x)])%list.*1).
  { rewrite fmap_app. intros key Hin. apply elem_of_app. left.
    revert Hin. apply filter_keys_subset. }
  assert (Hreplaced : forall p : prototype_slot N,
             (forall key, key ∈ ps2.*1 ->
                find_inherited p key = NotFound \/ find_inherited p key = WritableData) ->
             forEach ps2.*1
               (copy_property (Object (ps1 ++ ("__proto__", x) :: ps2)))
               {| prototype := p; own := List.filter (writable_through proto) ps1 |}
             = Return {| prototype := p;
                         own := (List.filter (writable_through proto) ps1 ++ ps2)%list |}).
  { intros p Hp.
    apply (forEach_copies_stretch p _ [] ps2 (ps1 ++ [("__proto__", x)])%list);
      trivial; simpl; now rewrite <- app_assoc, app_nil_r. }
  assert (Hkept : forEach ps2.*1
                    (copy_property (Object (ps1 ++ ("__proto__", x) :: ps2)))
                    {| prototype := Given proto;
                       own := List.filter (writable_through proto) ps1 |}
                  = Return {| prototype := Given proto;
                              own := (List.filter (writable_through proto) ps1
                                      ++ List.filter (writable_through proto) ps2)%list |}).
  { apply (forEach_filters_stretch proto _ [] ps2 (ps1 ++ [("__proto__", x)])%list);
      trivial; try (simpl; now rewrite <- app_assoc, app_nil_r).
    intros key Hkey. apply Hcases. rewrite fmap_app. apply elem_of_app. now right. }
  assert (Hparsed : forall key, key ∈ ps2.*1 ->
             find_inherited (Parsed x) key = NotFound
             \/ find_inherited (Parsed x) key = WritableData).
  { intros key Hkey. simpl. destruct (get x key); [now right|].
    destruct (String.eqb_spec key "__proto__") as [->|_]; [contradiction | now left]. }
  destruct x; simpl; first [exact Hkept | apply Hreplaced; trivial; intros key _; now left].
Qed.

Lemma fromJSON_proto_key_sets_prototype_witness :
  fromJSON JSON.parse Shape_prototype
    (getJSON JSON.stringify
       (Object ([("area", Number 9%Z)] ++ ("__proto__", Null) :: [("width", Number 2%Z)])))
  = Return {| prototype := NoPrototype; own := [("width", Number 2%Z)] |}
  /\ fromJSON JSON.parse Circle_prototype
       (getJSON JSON.stringify
          (Object ([("radius", Number 1%Z)] ++ ("__proto__", Object [("a", Number 1%Z)])
                     :: [("x", Number 2%Z)])))
     = Return {| prototype := Parsed (Object [("a", Number 1%Z)]);
                 own := [("radius", Number 1%Z); ("x", Number 2%Z)] |}.
Proof.
  split.
  - refine (fromJSON_proto_key_sets_prototype Z JSON.stringify JSON.parse Shape_prototype
              [("area", Number 9%Z)] [("width", Number 2%Z)] Null _ _ _ _).
    + vm_compute. reflexivity.
    + simpl. apply (bool_decide_unpack _). vm_compute. exact I.
    + reflexivity.
    + intros key Hkey. simpl in Hkey.
      repeat (apply elem_of_cons in Hkey as [->|Hkey]);
        [right; reflexivity | left; left; reflexivity |].
      now apply elem_of_nil in Hkey.
  - refine (fromJSON_proto_key_sets_prototype Z JSON.stringify JSON.parse Circle_prototype
              [("radius", Number 1%Z)] [("x", Number 2%Z)] (Object [("a", Number 1%Z)])
              _ _ _ _).
    + vm_compute. reflexivity.
    + simpl. apply (bool_decide_unpack _). vm_compute. exact I.
    + reflexivity.
    + intros key Hkey. simpl in Hkey.
      repeat (apply elem_of_cons in Hkey as [->|Hkey]);
        [left; left; reflexivity | left; left; reflexivity |].
      now apply elem_of_nil in Hkey.
Defined.

(** X12.  A setter that throws makes [fromJSON] throw.  Let [v] be a
    round-tripping object and [k] a key of [v] that reaches a setter on
    the chain of [proto], the keys before [k] reaching neither a setter
    nor the [__proto__] setter.  The setter is called with the properties
    copied so far, which are those before [k] that are not read-only
    through [proto], and with the value of [k]; when that call throws,
    [fromJSON(proto, getJSON(v))] throws the same error and returns no
    object, whatever follows [k]. *)
Theorem fromJSON_setter_error_propagates :
  forall (N : Type) (JSON_stringify : value N -> string)
         (JSON_parse : string -> completion (value N))
         (proto : Prototype N) (ps1 ps2 : list (string * value N))
         (k : string) (x : value N)
         (set : list (string * value N) -> value N -> completion (list (string * value N)))
         (e : exn),
    JSON_parse (JSON_stringify (Object (ps1 ++ (k, x) :: ps2)))
    = Return (Object (ps1 ++ (k, x) :: ps2)) ->
    NoDup ((ps1 ++ (k, x) :: ps2)%list).*1 ->
    (forall key, key ∈ ps1.*1 -> assignable proto key \/ on_chain proto key = ReadOnly) ->
    on_chain proto k = Setter set ->
    set (List.filter (writable_through proto) ps1) x = Throw e ->
    fromJSON JSON_parse proto (getJSON JSON_stringify (Object (ps1 ++ (k, x) :: ps2)))
    = Throw e.
Proof.
  intros N JSON_stringify JSON_parse proto ps1 ps2 k x set e
         Hround Hnodup Hcases Hsetter Hthrow.
  unfold fromJSON, getJSON. rewrite Hround. unfold Object_keys. simpl own_enumerable. cbv iota.
  destruct (NoDup_keys_head ps1 ps2 k x Hnodup) as [Hk1 _].
  rewrite fmap_app, fmap_cons, forEach_app.
  rewrite (forEach_filters_stretch proto _ ((k, x) :: ps2) ps1 [] []); trivial.
  simpl app. simpl forEach. unfold copy_property at 1.
  rewrite (get_member (Object (ps1 ++ (k, x) :: ps2)) ps1 ps2 k x eq_refl Hk1).
  assert (Hk0 : k ∉ (List.filter (writable_through proto) ps1).*1)
    by (intros Hin; apply Hk1; revert Hin; apply filter_keys_subset).
  rewrite put_fresh by exact Hk0. simpl.
  now rewrite Hsetter, Hthrow.
Qed.

Lemma fromJSON_setter_error_propagates_witness :
  fromJSON JSON.parse Guarded_prototype
    (getJSON JSON.stringify
       (Object ([("name", Str "c"); ("kind", Str "round")] ++ ("radius", Number (-1)%Z)
                  :: [("x", Number 2%Z)])))
  = Throw (Error "negative radius").
Proof.
  refine (fromJSON_setter_error_propagates Z JSON.stringify JSON.parse Guarded_prototype
            [("name", Str "c"); ("kind", Str "round")] [("x", Number 2%Z)]
            "radius" (Number (-1)%Z) _ _ _ _ _ eq_refl _).
  - vm_compute. reflexivity.
  - simpl. apply (bool_decide_unpack _). vm_compute. exact I.
  - intros key Hkey. simpl in Hkey.
    repeat (apply elem_of_cons in Hkey as [->|Hkey]);
      [left; left; reflexivity | right; reflexivity |].
    now apply elem_of_nil in Hkey.
  - reflexivity.
Defined.
